(** * Notation: the presentation layer over the score engine

    A shallow embedding of [src/mu4/notation/internal/notation.cpp].

    Conventions of the embedding:
    - [qreal] coordinates are exact rationals ([Q]); the properties below
      depend only on comparisons between coordinates and on the sequence of
      calls, not on rounding;
    - the [QPainter] handed to [paint] is the list of calls it has received,
      oldest first, so that drawing can be counted and compared;
    - a pointer that may be null is an [option]; a member function that
      dereferences it without a test has no defined result on [None], and is
      embedded as a function into [option];
    - the score engine (libmscore), the Qt value classes and the framework's
      observable primitives are collaborators whose code is outside this
      translation unit; their state is a record and the operations used here
      are given next to the place where they are called. *)

From Stdlib Require Import ZArith QArith Lqa Lia List Sorted Ascii String.
From stdpp Require Import base option list sorting strings gmap pretty.

Local Open Scope Q_scope.

(** ** Qt value classes *)

Module Qt.

(** [a < b] on [qreal]. *)
Definition Qltb (a b : Q) : bool := negb (Qle_bool b a).

(** Implicit conversion of a [double] to [int]: the fraction is dropped. *)
Definition toInt (q : Q) : Z := Z.quot (Qnum q) (Zpos (Qden q)).

Record QPointF := mkQPointF { px : Q; py : Q }.

(** [QPointF operator-(const QPointF&)]. *)
Definition negated (p : QPointF) : QPointF :=
  {| px := - px p; py := - py p |}.

Record QSizeF := mkQSizeF { wd : Q; ht : Q }.

(** [QRectF] stores its corner and its size. *)
Record QRectF := mkQRectF { xp : Q; yp : Q; w : Q; h : Q }.

Definition left (r : QRectF) : Q := xp r.
Definition right (r : QRectF) : Q := xp r + w r.
Definition bottom (r : QRectF) : Q := yp r + h r.

Definition translated (r : QRectF) (p : QPointF) : QRectF :=
  {| xp := xp r + px p; yp := yp r + py p; w := w r; h := h r |}.

(** [QRectF::adjust(dx1, dy1, dx2, dy2)]. *)
Definition adjust (r : QRectF) (dx1 dy1 dx2 dy2 : Q) : QRectF :=
  {| xp := xp r + dx1; yp := yp r + dy1;
     w := w r + (dx2 - dx1); h := h r + (dy2 - dy1) |}.

Definition isEmpty (r : QRectF) : bool :=
  Qle_bool (w r) 0 || Qle_bool (h r) 0.

Definition isNull (r : QRectF) : bool :=
  Qeq_bool (w r) 0 && Qeq_bool (h r) 0.

(** [QRect] stores two corners, as integers. *)
Record QRect := mkQRect { x1 : Z; y1 : Z; x2 : Z; y2 : Z }.

(** The default constructor [QRect()]. *)
Definition QRect_null : QRect := {| x1 := 0; y1 := 0; x2 := -1; y2 := -1 |}.

Definition width (r : QRect) : Z := (x2 r - x1 r + 1)%Z.
Definition height (r : QRect) : Z := (y2 r - y1 r + 1)%Z.

(** The converting constructor [QRectF(const QRect&)]. *)
Definition QRectF_of_QRect (r : QRect) : QRectF :=
  {| xp := inject_Z (x1 r); yp := inject_Z (y1 r);
     w := inject_Z (width r); h := inject_Z (height r) |}.

Record QColor := mkQColor { red : Z; green : Z; blue : Z; alpha : Z }.

Inductive BrushStyle := NoBrush | SolidPattern.

Record QPen := mkQPen { penColor : QColor; penWidth : Q }.

End Qt.

Import Qt.

(** ** The score engine's data, as this layer reads it *)

(** [Ms::LayoutMode]; [ViewMode] is the notation layer's name for it. *)
Inductive LayoutMode := PAGE | FLOAT | LINE | SYSTEM.

Definition ViewMode := LayoutMode.

(** An element of a page.  [Element::draw] is the element's own business;
    the painter records that it was asked to draw. *)
Record Element := mkElement {
  elementId : Z;
  visible : bool;
  pagePos : QPointF
}.

(** A page: position, boxes, margins, parity and its elements, each as the
    engine reports it. *)
Record Page := mkPage {
  pos : QPointF;
  bbox : QRectF;
  abbox : QRectF;
  canvasBoundingRect : QRectF;
  lm : Q;
  tm : Q;
  rm : Q;
  bm : Q;
  isOdd : bool;
  elements : list Element
}.

(** ** The painter *)

(** What painting does, in order: the calls on the painter, the request to
    an element to draw itself, the write that clears an element's
    [itemDiscovered] mark, and the hand-over to the interaction component
    for its overlay. *)
Inductive PainterCall :=
| SetBrush (b : BrushStyle)
| SetPen (p : QPen)
| DrawRect (r : QRectF)
| DrawLine (ax ay bx by' : Z)
| Translate (p : QPointF)
| FillRect (r : QRectF) (c : QColor)
| ResetItemDiscovered (e : Element)
| DrawElement (e : Element)
| PaintInteraction.

Definition QPainter := list PainterCall.

Module Painter.
Definition setBrush (painter : QPainter) (b : BrushStyle) : QPainter :=
  painter ++ [SetBrush b].
Definition setPen (painter : QPainter) (p : QPen) : QPainter :=
  painter ++ [SetPen p].
(** [setPen(const QColor&)]: a solid pen of width 1. *)
Definition setPenColor (painter : QPainter) (c : QColor) : QPainter :=
  painter ++ [SetPen {| penColor := c; penWidth := 1 |}].
Definition drawRect (painter : QPainter) (r : QRectF) : QPainter :=
  painter ++ [DrawRect r].
(** [drawLine(int, int, int, int)], the only overload of four scalars. *)
Definition drawLine (painter : QPainter) (ax ay bx by' : Q) : QPainter :=
  painter ++ [DrawLine (Qt.toInt ax) (Qt.toInt ay) (Qt.toInt bx) (Qt.toInt by')].
Definition translate (painter : QPainter) (p : QPointF) : QPainter :=
  painter ++ [Translate p].
Definition fillRect (painter : QPainter) (r : QRectF) (c : QColor) : QPainter :=
  painter ++ [FillRect r c].
End Painter.

(** ** Dates and their text forms *)

Module QtDate.

Local Open Scope Z_scope.

(** A [QDate] is a Julian day number, or the null date. *)
Definition QDate := option Z.

Definition nullDate : QDate := None.

Definition isLeapYear (y : Z) : bool :=
  let y := if y <? 1 then y + 1 else y in
  ((y mod 4 =? 0) && negb (y mod 100 =? 0)) || (y mod 400 =? 0).

Definition monthDays (month : Z) : Z :=
  match month with
  | 1 => 31 | 2 => 28 | 3 => 31 | 4 => 30 | 5 => 31 | 6 => 30
  | 7 => 31 | 8 => 31 | 9 => 30 | 10 => 31 | 11 => 30 | 12 => 31
  | _ => 0
  end.

(** [QDate::isValid(year, month, day)]. *)
Definition isValidYMD (year month day : Z) : bool :=
  if year =? 0 then false
  else ((0 <? day) && (0 <? month) && (month <=? 12))
       && ((day <=? monthDays month)
           || ((day =? 29) && (month =? 2) && isLeapYear year)).

(** Gregorian date to Julian day; every division rounds down. *)
Definition julianDayFromDate (year month day : Z) : Z :=
  let year := if year <? 0 then year + 1 else year in
  let a := (14 - month) / 12 in
  let y := year + 4800 - a in
  let m := month + 12 * a - 3 in
  day + (153 * m + 2) / 5 + 365 * y + y / 4 - y / 100 + y / 400 - 32045.

(** Julian day to Gregorian (year, month, day). *)
Definition getDateFromJulianDay (julianDay : Z) : Z * Z * Z :=
  let a := julianDay + 32044 in
  let b := (4 * a + 3) / 146097 in
  let c := a - (146097 * b) / 4 in
  let d := (4 * c + 3) / 1461 in
  let e := c - (1461 * d) / 4 in
  let m := (5 * e + 2) / 153 in
  let day := e - (153 * m + 2) / 5 + 1 in
  let month := m + 3 - 12 * (m / 10) in
  let year := 100 * b + d - 4800 + m / 10 in
  let year := if year <=? 0 then year - 1 else year in
  (year, month, day).

(** The constructor [QDate(y, m, d)]. *)
Definition mkDate (year month day : Z) : QDate :=
  if isValidYMD year month day
  then Some (julianDayFromDate year month day)
  else nullDate.

(** 1 is Monday, 7 is Sunday. *)
Definition dayOfWeek (jd : Z) : Z :=
  if 0 <=? jd then jd mod 7 + 1 else (jd + 1) mod 7 + 7.

(** Short names of the C locale. *)
Definition shortDayName (d : Z) : string :=
  match d with
  | 1 => "Mon" | 2 => "Tue" | 3 => "Wed" | 4 => "Thu"
  | 5 => "Fri" | 6 => "Sat" | _ => "Sun"
  end.

Definition shortMonthName (m : Z) : string :=
  match m with
  | 1 => "Jan" | 2 => "Feb" | 3 => "Mar" | 4 => "Apr" | 5 => "May"
  | 6 => "Jun" | 7 => "Jul" | 8 => "Aug" | 9 => "Sep" | 10 => "Oct"
  | 11 => "Nov" | _ => "Dec"
  end.

(** [QString::number(int)]. *)
Definition number (n : Z) : string := pretty n.

(** The format [Qt::TextDate]: day name, month name, day, year. *)
Definition toStringTextDate (jd : Z) : string :=
  let '(year, month, day) := getDateFromJulianDay jd in
  shortDayName (dayOfWeek jd) +:+ " " +:+ shortMonthName month +:+ " "
    +:+ number day +:+ " " +:+ number year.

Definition pad (width : nat) (s : string) : string :=
  String.concat "" (replicate (width - String.length s) "0") +:+ s.

(** The format [Qt::ISODate]: yyyy-MM-dd. *)
Definition toStringIsoDate (jd : Z) : string :=
  let '(year, month, day) := getDateFromJulianDay jd in
  if (year <? 0) || (9999 <? year) then ""
  else pad 4 (number year) +:+ "-" +:+ pad 2 (number month) +:+ "-"
         +:+ pad 2 (number day).

Inductive DateFormat := TextDate | ISODate.

(** [QDate::toString(Qt::DateFormat format = Qt::TextDate)]. *)
Definition toStringFormat (d : QDate) (format : DateFormat) : string :=
  match d with
  | None => ""
  | Some jd =>
      match format with
      | TextDate => toStringTextDate jd
      | ISODate => toStringIsoDate jd
      end
  end.

(** [toString()], with the default argument. *)
Definition toString (d : QDate) : string := toStringFormat d TextDate.

Definition isDigit (c : ascii) : bool :=
  let n := Z.of_nat (nat_of_ascii c) in (48 <=? n) && (n <=? 57).

Definition isSpace (c : ascii) : bool :=
  let n := Z.of_nat (nat_of_ascii c) in (n =? 32) || ((9 <=? n) && (n <=? 13)).

(** [QString::at(i).isDigit()], for [i] inside the string. *)
Definition digitAt (s : string) (i : nat) : bool :=
  match String.get i s with
  | Some c => isDigit c
  | None => false
  end.

Fixpoint dropSpaces (s : string) : string :=
  match s with
  | String c s' => if isSpace c then dropSpaces s' else s
  | EmptyString => s
  end.

(** The value of a run of digits followed only by white space. *)
Fixpoint digitsValue (s : string) (acc : Z) : option Z :=
  match s with
  | EmptyString => Some acc
  | String c s' =>
      if isDigit c
      then digitsValue s' (10 * acc + (Z.of_nat (nat_of_ascii c) - 48))
      else if isSpace c
           then match dropSpaces s' with EmptyString => Some acc | _ => None end
           else None
  end.

Definition unsignedValue (s : string) : option Z :=
  match s with
  | String c _ => if isDigit c then digitsValue s 0 else None
  | EmptyString => None
  end.

(** [toInt()]: white space around the number is ignored, a sign is
    accepted, and the result is 0 when the text is not an [int]. *)
Definition toInt (s : string) : Z :=
  let v :=
    match dropSpaces s with
    | String "-"%char s' => Z.opp <$> unsignedValue s'
    | String "+"%char s' => unsignedValue s'
    | s' => unsignedValue s'
    end in
  match v with
  | Some n => if (- 2147483648 <=? n) && (n <=? 2147483647) then n else 0
  | None => 0
  end.

(** [QDate::fromString(string, Qt::ISODate)]. *)
Definition fromStringIsoDate (s : string) : QDate :=
  let size := String.length s in
  if (size <? 10)%nat || digitAt s 4 || digitAt s 7
     || ((10 <? size)%nat && digitAt s 10)
  then nullDate
  else
    let year := toInt (substring 0 4 s) in
    if (year <=? 0) || (9999 <? year) then nullDate
    else mkDate year (toInt (substring 5 2 s)) (toInt (substring 8 2 s)).

End QtDate.

Import QtDate.

(** ** The score *)

(** Modelled from the spec: the score engine's handle ([libmscore/score.h]
    is not part of this translation unit) exposes a title, metadata tags by
    key, the ordered pages, the layout mode and the two flags [printing] and
    [showPageborders]. *)
Record Score := mkScore {
  title : string;
  metaTags : gmap string string;
  pages : list Page;
  layoutMode : LayoutMode;
  printing : bool;
  showPageborders : bool
}.

(** Modelled from the spec: [metaTag(key) -> string]; a key that was never
    set reads as the empty string. *)
Definition metaTag (s : Score) (key : string) : string :=
  default EmptyString (metaTags s !! key).

(** Modelled from the spec: [setMetaTag(key, value)]. *)
Definition setMetaTag (s : Score) (key value : string) : Score :=
  {| title := title s;
     metaTags := <[key := value]> (metaTags s);
     pages := pages s;
     layoutMode := layoutMode s;
     printing := printing s;
     showPageborders := showPageborders s |}.

(** Modelled from the spec: [setLayoutMode(mode)]. *)
Definition setLayoutMode (s : Score) (mode : LayoutMode) : Score :=
  {| title := title s;
     metaTags := metaTags s;
     pages := pages s;
     layoutMode := mode;
     printing := printing s;
     showPageborders := showPageborders s |}.

(** ** Observables of the framework *)

(** Modelled from the spec: a value with a change channel ([mu::ValCh<T>]);
    [ch] holds what was sent on the channel, oldest first. *)
Record ValCh (T : Type) := mkValCh { val : T; ch : list T }.

Arguments mkValCh {T} _ _.
Arguments val {T} _.
Arguments ch {T} _.

(** Modelled from the spec: [ValCh::set] stores the value and sends it. *)
Definition ValCh_set {T : Type} (v : ValCh T) (x : T) : ValCh T :=
  {| val := x; ch := ch v ++ [x] |}.

(** Modelled from the spec: a zero-argument notification channel
    ([mu::async::Notification]), as the number of times it was notified. *)
Definition Notification := nat.

Definition notify (n : Notification) : Notification := S n.

(** ** The notation *)

Record Meta := mkMeta {
  meta_title : string;
  meta_subtitle : string;
  meta_composer : string;
  meta_lyricist : string;
  meta_copyright : string;
  meta_translator : string;
  meta_arranger : string;
  meta_creationDate : QDate
}.

Record INotationConfiguration := mkConfiguration {
  pageColor : QColor;
  borderColor : QColor;
  borderWidth : Z
}.

Record Notation := mkNotation {
  m_score : option Score;
  m_opened : ValCh bool;
  m_notationChanged : Notification;
  m_viewSize : QSizeF
}.

Definition SUBTITLE_KEY : string := "subtitle".
Definition COMPOSER_KEY : string := "composer".
Definition LYRICIST_KEY : string := "lyricist".
Definition COPYRIGHT_KEY : string := "copyright".
Definition TRANSLATOR_KEY : string := "translator".
Definition ARRANGER_KEY : string := "arranger".
Definition CREATION_DATE_KEY : string := "creationDate".

Definition with_score (n : Notation) (s : Score) : Notation :=
  {| m_score := Some s;
     m_opened := m_opened n;
     m_notationChanged := m_notationChanged n;
     m_viewSize := m_viewSize n |}.

(** [Notation::setScore]: the interaction and playback components, which
    are initialised here for a score that is not null, keep their state
    outside this record. *)
Definition setScore (n : Notation) (score : option Score) : Notation :=
  {| m_score := score;
     m_opened := m_opened n;
     m_notationChanged := m_notationChanged n;
     m_viewSize := m_viewSize n |}.

(** The constructor [Notation(Score* score)]. *)
Definition Notation_new (score : option Score) : Notation :=
  setScore {| m_score := None;
              m_opened := {| val := false; ch := [] |};
              m_notationChanged := O;
              m_viewSize := {| wd := -(1); ht := -(1) |} |} score.

Definition score (n : Notation) : option Score := m_score n.

Definition metaInfo (n : Notation) : option Meta :=
  match score n with
  | None => None
  | Some s =>
      Some {| meta_title := title s;
              meta_subtitle := metaTag s SUBTITLE_KEY;
              meta_composer := metaTag s COMPOSER_KEY;
              meta_lyricist := metaTag s LYRICIST_KEY;
              meta_copyright := metaTag s COPYRIGHT_KEY;
              meta_translator := metaTag s TRANSLATOR_KEY;
              meta_arranger := metaTag s ARRANGER_KEY;
              meta_creationDate :=
                fromStringIsoDate (metaTag s CREATION_DATE_KEY) |}
  end.

Definition setMetaInfo (n : Notation) (meta : Meta) : option Notation :=
  match score n with
  | None => None
  | Some s =>
      let s := setMetaTag s SUBTITLE_KEY (meta_subtitle meta) in
      let s := setMetaTag s COMPOSER_KEY (meta_composer meta) in
      let s := setMetaTag s LYRICIST_KEY (meta_lyricist meta) in
      let s := setMetaTag s COPYRIGHT_KEY (meta_copyright meta) in
      let s := setMetaTag s TRANSLATOR_KEY (meta_translator meta) in
      let s := setMetaTag s ARRANGER_KEY (meta_arranger meta) in
      let s := setMetaTag s CREATION_DATE_KEY
                 (toString (meta_creationDate meta)) in
      Some (with_score n s)
  end.

Definition setViewSize (n : Notation) (vs : QSizeF) : Notation :=
  {| m_score := m_score n;
     m_opened := m_opened n;
     m_notationChanged := m_notationChanged n;
     m_viewSize := vs |}.

Definition notifyAboutNotationChanged (n : Notation) : Notation :=
  {| m_score := m_score n;
     m_opened := m_opened n;
     m_notationChanged := notify (m_notationChanged n);
     m_viewSize := m_viewSize n |}.

Definition viewMode (n : Notation) : ViewMode :=
  match m_score n with
  | None => PAGE
  | Some s => layoutMode s
  end.

Definition previewRect (n : Notation) : option QRectF :=
  match m_score n with
  | None => None
  | Some s =>
      match pages s with
      | [] => Some (QRectF_of_QRect QRect_null)
      | first :: _ => Some (bbox first)
      end
  end.

Definition opened (n : Notation) : ValCh bool := m_opened n.

Definition setOpened (n : Notation) (opened : bool) : Notation :=
  if Bool.eqb (val (m_opened n)) opened then n
  else {| m_score := m_score n;
          m_opened := ValCh_set (m_opened n) opened;
          m_notationChanged := m_notationChanged n;
          m_viewSize := m_viewSize n |}.

Definition notationChanged (n : Notation) : Notification := m_notationChanged n.

Definition viewSize (n : Notation) : QSizeF := m_viewSize n.

Section Collaborators.

(** The configuration service, the engine's global margin colour and the
    engine's layout pass. *)
Variable configuration : INotationConfiguration.
Variable frameMarginColor : QColor.
Variable doLayout : Score -> Score.

Definition setViewMode (n : Notation) (viewMode : ViewMode) : Notation :=
  match m_score n with
  | None => n
  | Some s =>
      let s := setLayoutMode s viewMode in
      let s := doLayout s in
      notifyAboutNotationChanged (with_score n s)
  end.

Fixpoint paintElements (painter : QPainter) (elements : list Element)
  : QPainter :=
  match elements with
  | [] => painter
  | element :: rest =>
      if negb (visible element) then paintElements painter rest
      else
        let painter := painter ++ [ResetItemDiscovered element] in
        let elementPosition := pagePos element in
        let painter := Painter.translate painter elementPosition in
        let painter := painter ++ [DrawElement element] in
        let painter := Painter.translate painter (negated elementPosition) in
        paintElements painter rest
  end.

Definition paintPageBorder (s : Score) (painter : QPainter) (page : Page)
  : QPainter :=
  let boundingRect := canvasBoundingRect page in
  let painter := Painter.setBrush painter NoBrush in
  let painter :=
    Painter.setPen painter
      {| penColor := borderColor configuration;
         penWidth := inject_Z (borderWidth configuration) |} in
  let painter := Painter.drawRect painter boundingRect in
  if negb (showPageborders s) then painter
  else
    let painter := Painter.setBrush painter NoBrush in
    let painter := Painter.setPenColor painter frameMarginColor in
    let boundingRect :=
      adjust boundingRect (lm page) (tm page) (- rm page) (- bm page) in
    let painter := Painter.drawRect painter boundingRect in
    if negb (isOdd page)
    then Painter.drawLine painter (right boundingRect) 0
           (right boundingRect) (bottom boundingRect)
    else painter.

Fixpoint paintPages (s : Score) (painter : QPainter) (frameRect : QRectF)
    (pages : list Page) (paintBorders : bool) : QPainter :=
  match pages with
  | [] => painter
  | page :: rest =>
      let pageRect := translated (abbox page) (pos page) in
      if Qltb (right pageRect) (left frameRect)
      then paintPages s painter frameRect rest paintBorders
      else if Qltb (right frameRect) (left pageRect)
      then painter
      else
        let painter :=
          if paintBorders then paintPageBorder s painter page else painter in
        let pagePosition := pos page in
        let painter := Painter.translate painter pagePosition in
        let painter :=
          Painter.fillRect painter (bbox page) (pageColor configuration) in
        let painter := paintElements painter (elements page) in
        let painter := Painter.translate painter (negated pagePosition) in
        paintPages s painter frameRect rest paintBorders
  end.

Definition paint (n : Notation) (painter : QPainter) (frameRect : QRectF)
  : option QPainter :=
  match score n with
  | None => None
  | Some s =>
      match pages s with
      | [] => Some painter
      | first :: _ =>
          let painter :=
            match layoutMode s with
            | LINE | SYSTEM =>
                let paintBorders := false in
                paintPages s painter frameRect [first] paintBorders
            | FLOAT | PAGE =>
                let paintBorders := negb (printing s) in
                paintPages s painter frameRect (pages s) paintBorders
            end in
          Some (painter ++ [PaintInteraction])
      end
  end.

End Collaborators.

(** [Notation::clone]: a new notation around the engine's copy of the
    score; the engine's [Score::clone] is a parameter. *)
Definition clone (cloneScore : Score -> Score) (n : Notation)
  : option Notation :=
  match score n with
  | None => None
  | Some s => Some (Notation_new (Some (cloneScore s)))
  end.

(** The change signals of the components that the constructor subscribes
    to, and the selection signal, which it only hands on to the
    accessibility and parts components. *)
Inductive ComponentSignal :=
| NoteAdded
| DragChanged
| TextEditingChanged
| DropChanged
| NoteChanged
| StyleChanged
| PartsChanged
| SelectionChanged.

(** Modelled from the spec: [onNotify(this, callback)] runs the callback
    once for every notification of the channel it was registered on.  The
    callbacks registered by the constructor all call
    [notifyAboutNotationChanged]. *)
Definition onNotify (n : Notation) (signal : ComponentSignal) : Notation :=
  match signal with
  | NoteAdded => notifyAboutNotationChanged n
  | DragChanged => notifyAboutNotationChanged n
  | TextEditingChanged => notifyAboutNotationChanged n
  | DropChanged => notifyAboutNotationChanged n
  | NoteChanged => notifyAboutNotationChanged n
  | StyleChanged => notifyAboutNotationChanged n
  | PartsChanged => notifyAboutNotationChanged n
  | SelectionChanged => n
  end.

(** ** Notions used in the statements *)

(** The canvas rectangle that [paintPages] computes for a page. *)
Definition pageRect (page : Page) : QRectF :=
  translated (abbox page) (pos page).

(** The page and the frame overlap horizontally: the page is neither
    entirely to the left of the frame nor entirely to its right. *)
Definition intersectsH (frameRect : QRectF) (page : Page) : bool :=
  negb (Qltb (right (pageRect page)) (left frameRect))
  && negb (Qltb (right frameRect) (left (pageRect page))).

(** [q] lies further right than [p], at both edges. *)
Definition further_right (p q : Page) : Prop :=
  left (pageRect p) < left (pageRect q)
  /\ right (pageRect p) < right (pageRect q).

(** Pages laid out with strictly increasing horizontal extents. *)
Definition increasing_extents (pages : list Page) : Prop :=
  StronglySorted further_right pages.

(** What one iteration of the loop of [paintPages] does to the painter for
    a page that is neither skipped nor past the frame. *)
Definition paintPage (configuration : INotationConfiguration)
    (frameMarginColor : QColor) (s : Score) (paintBorders : bool)
    (painter : QPainter) (page : Page) : QPainter :=
  let painter :=
    if paintBorders
    then paintPageBorder configuration frameMarginColor s painter page
    else painter in
  let pagePosition := pos page in
  let painter := Painter.translate painter pagePosition in
  let painter := Painter.fillRect painter (bbox page) (pageColor configuration) in
  let painter := paintElements painter (elements page) in
  Painter.translate painter (negated pagePosition).

(** The calls that painting one page issues, on their own. *)
Definition pageCalls (configuration : INotationConfiguration)
    (frameMarginColor : QColor) (s : Score) (paintBorders : bool)
    (page : Page) : list PainterCall :=
  paintPage configuration frameMarginColor s paintBorders [] page.

Definition isDrawLine (c : PainterCall) : bool :=
  match c with DrawLine _ _ _ _ => true | _ => false end.

Definition isDrawRect (c : PainterCall) : bool :=
  match c with DrawRect _ => true | _ => false end.

(** The number of line-draw calls a painter has received. *)
Definition lineDraws (painter : QPainter) : nat :=
  length (List.filter isDrawLine painter).

Definition rectDraws (painter : QPainter) : nat :=
  length (List.filter isDrawRect painter).

(** The keys that [setMetaInfo] writes. *)
Definition metaKeys : list string :=
  [SUBTITLE_KEY; COMPOSER_KEY; LYRICIST_KEY; COPYRIGHT_KEY;
   TRANSLATOR_KEY; ARRANGER_KEY; CREATION_DATE_KEY].

(** Two pages that differ at most in their parity and their contents. *)
Definition same_geometry (p q : Page) : Prop :=
  canvasBoundingRect p = canvasBoundingRect q
  /\ lm p = lm q /\ tm p = tm q /\ rm p = rm q /\ bm p = bm q.

(** The frame inset by the page's margins. *)
Definition marginRect (page : Page) : QRectF :=
  adjust (canvasBoundingRect page)
    (lm page) (tm page) (- rm page) (- bm page).

(** The calls that draw the outer frame of a page. *)
Definition outerFrameCalls (configuration : INotationConfiguration)
    (page : Page) : list PainterCall :=
  [SetBrush NoBrush;
   SetPen {| penColor := borderColor configuration;
             penWidth := inject_Z (borderWidth configuration) |};
   DrawRect (canvasBoundingRect page)].

(** The calls that draw the frame inset by the margins. *)
Definition marginFrameCalls (frameMarginColor : QColor) (page : Page)
  : list PainterCall :=
  [SetBrush NoBrush;
   SetPen {| penColor := frameMarginColor; penWidth := 1 |};
   DrawRect (marginRect page)].

(** The vertical rule at the right margin. *)
Definition marginRule (page : Page) : PainterCall :=
  DrawLine (Qt.toInt (right (marginRect page))) (Qt.toInt 0)
    (Qt.toInt (right (marginRect page))) (Qt.toInt (bottom (marginRect page))).

(** The pages that the loop of [paintPages] reaches: those before the first
    page that is not left of the frame and starts beyond its right edge. *)
Fixpoint beforeBreak (frameRect : QRectF) (pages : list Page) : list Page :=
  match pages with
  | [] => []
  | page :: rest =>
      if negb (Qltb (right (pageRect page)) (left frameRect))
         && Qltb (right frameRect) (left (pageRect page))
      then []
      else page :: beforeBreak frameRect rest
  end.

(** The elements a painter was asked to draw, in order. *)
Fixpoint drawnElements (calls : list PainterCall) : list Element :=
  match calls with
  | [] => []
  | DrawElement e :: rest => e :: drawnElements rest
  | _ :: rest => drawnElements rest
  end.

(** The elements whose [itemDiscovered] mark was cleared, in order. *)
Fixpoint resetElements (calls : list PainterCall) : list Element :=
  match calls with
  | [] => []
  | ResetItemDiscovered e :: rest => e :: resetElements rest
  | _ :: rest => resetElements rest
  end.



(** Two points with equal coordinates. *)
Definition peq (a b : QPointF) : Prop :=
  px a == px b /\ py a == py b.




(** Two lists of placed items that agree item by item, the places up to
    equality of coordinates. *)
Definition same_places {A : Type} (l1 l2 : list (A * QPointF)) : Prop :=
  Forall2 (fun x y => fst x = fst y /\ peq (snd x) (snd y)) l1 l2.


(** The opened values that a run of [setOpened] calls sends on the channel
    when the value was [current] before: each value that differs from the
    one before it. *)
Fixpoint changes (current : bool) (xs : list bool) : list bool :=
  match xs with
  | [] => []
  | x :: rest =>
      if Bool.eqb current x then changes current rest
      else x :: changes x rest
  end.

(** The score with another list of pages. *)
Definition with_pages (s : Score) (ps : list Page) : Score :=
  {| title := title s;
     metaTags := metaTags s;
     pages := ps;
     layoutMode := layoutMode s;
     printing := printing s;
     showPageborders := showPageborders s |}.

(** The short names of the days. *)
Definition shortDayNames : list string :=
  ["Mon"; "Tue"; "Wed"; "Thu"; "Fri"; "Sat"; "Sun"].

(** ** Sample data *)

Definition sampleConfiguration : INotationConfiguration :=
  {| pageColor := mkQColor 255 255 255 255;
     borderColor := mkQColor 0 0 0 255;
     borderWidth := 1 |}.

Definition sampleMarginColor : QColor := mkQColor 0 0 255 255.

Definition sampleElement : Element :=
  {| elementId := 7; visible := true; pagePos := mkQPointF 10 20 |}.

(** A page 100 wide and 150 high placed at abscissa [x]. *)
Definition samplePage (x : Q) (odd : bool) : Page :=
  {| pos := mkQPointF x 0;
     bbox := mkQRectF 0 0 100 150;
     abbox := mkQRectF 0 0 100 150;
     canvasBoundingRect := mkQRectF x 0 100 150;
     lm := 10; tm := 10; rm := 10; bm := 10;
     isOdd := odd;
     elements := [sampleElement] |}.

Definition samplePages : list Page :=
  [samplePage 0 true; samplePage 120 false; samplePage 240 true].

Definition sampleScore : Score :=
  {| title := "Sonata";
     metaTags := {[ "composer" := "Anonymous" ]};
     pages := samplePages;
     layoutMode := PAGE;
     printing := false;
     showPageborders := true |}.

Definition sampleNotation : Notation := Notation_new (Some sampleScore).

(** A score that has not been laid out into pages. *)
Definition sampleEmptyScore : Score :=
  {| title := "Untitled";
     metaTags := ∅;
     pages := [];
     layoutMode := LINE;
     printing := true;
     showPageborders := false |}.

(** A visible region that covers the second sample page only. *)
Definition sampleFrame : QRectF := mkQRectF 110 0 120 150.

Definition sampleMeta : Meta :=
  {| meta_title := "Partita";
     meta_subtitle := "in D";
     meta_composer := "J. S. Bach";
     meta_lyricist := "";
     meta_copyright := "public domain";
     meta_translator := "";
     meta_arranger := "F. Busoni";
     meta_creationDate := mkDate 2020 5 20 |}.

(** ** Comparisons *)

Lemma Qltb_true a b : Qltb a b = true <-> a < b.
Proof.
  unfold Qltb. rewrite negb_true_iff.
  destruct (Qle_bool b a) eqn:E.
  - apply Qle_bool_iff in E. split; [discriminate | intros H; lra].
  - split; [intros _ | reflexivity].
    destruct (Qlt_le_dec a b) as [Hlt | Hle]; [exact Hlt |].
    apply Qle_bool_iff in Hle. congruence.
Qed.

Lemma Qltb_false a b : Qltb a b = false <-> b <= a.
Proof.
  unfold Qltb. rewrite negb_false_iff. apply Qle_bool_iff.
Qed.

(** ** Painting *)

Ltac unfold_border :=
  unfold paintPageBorder, Painter.setBrush, Painter.setPen,
    Painter.setPenColor, Painter.drawRect, Painter.drawLine.

Ltac unfold_page :=
  unfold pageCalls, paintPage, Painter.translate, Painter.fillRect.

Ltac unfold_paint := unfold paint, score.

Section Painting.

Variable configuration : INotationConfiguration.
Variable frameMarginColor : QColor.

Local Abbreviation paintPageBorder := (paintPageBorder configuration frameMarginColor).
Local Abbreviation paintPages := (paintPages configuration frameMarginColor).
Local Abbreviation paintPage := (paintPage configuration frameMarginColor).
Local Abbreviation pageCalls := (pageCalls configuration frameMarginColor).

(** Every painting routine only appends to the calls received so far. *)

Lemma paintElements_app painter elements :
  paintElements painter elements = painter ++ paintElements [] elements.
Proof.
  revert painter.
  induction elements as [| e rest IH]; intros painter; cbn [paintElements].
  - now rewrite app_nil_r.
  - destruct (negb (visible e)); [apply IH |].
    rewrite IH. rewrite (IH (Painter.translate _ _)).
    unfold Painter.translate. cbn [app]. now rewrite <- !app_assoc.
Qed.

Lemma paintPageBorder_app s painter page :
  paintPageBorder s painter page = painter ++ paintPageBorder s [] page.
Proof.
  unfold_border.
  destruct (negb (showPageborders s)); [| destruct (negb (isOdd page))];
    cbn [app]; now rewrite <- !app_assoc.
Qed.

Lemma paintPage_app s paintBorders painter page :
  paintPage s paintBorders painter page
  = painter ++ pageCalls s paintBorders page.
Proof.
  unfold_page.
  rewrite paintElements_app.
  rewrite (paintElements_app (_ ++ _)).
  destruct paintBorders.
  - rewrite paintPageBorder_app. cbn [app]. now rewrite <- !app_assoc.
  - cbn [app]. now rewrite <- !app_assoc.
Qed.

(** The loop, one page at a time. *)
Lemma paintPages_cons s painter frameRect page rest paintBorders :
  paintPages s painter frameRect (page :: rest) paintBorders
  = if Qltb (right (pageRect page)) (left frameRect)
    then paintPages s painter frameRect rest paintBorders
    else if Qltb (right frameRect) (left (pageRect page))
         then painter
         else paintPages s (paintPage s paintBorders painter page)
                frameRect rest paintBorders.
Proof. reflexivity. Qed.

(** Once every remaining page starts beyond the right edge of the frame,
    nothing more is painted. *)
Lemma paintPages_beyond s painter frameRect pages paintBorders :
  Forall (fun q => right frameRect < left (pageRect q)) pages ->
  paintPages s painter frameRect pages paintBorders = painter.
Proof.
  induction 1 as [| q rest Hq _ IH]; [reflexivity |].
  rewrite paintPages_cons, IH.
  apply Qltb_true in Hq. rewrite Hq.
  now destruct (Qltb (right (pageRect q)) (left frameRect)).
Qed.

Lemma filter_beyond frameRect pages :
  Forall (fun q => right frameRect < left (pageRect q)) pages ->
  List.filter (intersectsH frameRect) pages = [].
Proof.
  induction 1 as [| q rest Hq _ IH]; [reflexivity |].
  cbn [List.filter]. rewrite IH. unfold intersectsH.
  apply Qltb_true in Hq. rewrite Hq.
  now rewrite andb_false_r.
Qed.

Lemma further_right_beyond frameRect page rest :
  right frameRect < left (pageRect page) ->
  Forall (further_right page) rest ->
  Forall (fun q => right frameRect < left (pageRect q)) rest.
Proof.
  intros Hp HF.
  induction HF as [| q rest' [Hl _] _ IH]; constructor; [lra | exact IH].
Qed.

Lemma paintPages_filter s painter frameRect pages paintBorders :
  increasing_extents pages ->
  paintPages s painter frameRect pages paintBorders
  = painter
    ++ concat (map (pageCalls s paintBorders)
                 (List.filter (intersectsH frameRect) pages)).
Proof.
  intros Hsorted. revert painter.
  induction Hsorted as [| page rest _ IH Hrest]; intros painter.
  - cbn. now rewrite app_nil_r.
  - rewrite paintPages_cons. cbn [List.filter]. unfold intersectsH at 1.
    destruct (Qltb (right (pageRect page)) (left frameRect)) eqn:Hleft.
    + cbn [negb andb]. apply IH.
    + destruct (Qltb (right frameRect) (left (pageRect page))) eqn:Hright.
      * cbn [negb andb]. apply Qltb_true in Hright.
        rewrite filter_beyond by eauto using further_right_beyond.
        cbn. now rewrite app_nil_r.
      * cbn [negb andb map concat].
        rewrite IH, paintPage_app. now rewrite <- app_assoc.
Qed.

(** A page entirely to the left of the frame contributes nothing: the loop
    goes on to the next page. *)
Lemma paintPages_skip s frameRect page post paintBorders pre painter :
  right (pageRect page) < left frameRect ->
  paintPages s painter frameRect (pre ++ page :: post) paintBorders
  = paintPages s painter frameRect (pre ++ post) paintBorders.
Proof.
  intros Hleft. revert painter.
  induction pre as [| p pre IH]; intros painter.
  - cbn [app]. rewrite paintPages_cons.
    apply Qltb_true in Hleft. now rewrite Hleft.
  - rewrite <- !app_comm_cons, !paintPages_cons, !IH. reflexivity.
Qed.

(** Pages that all start beyond the frame can be cut off the list. *)
Lemma paintPages_app_beyond s frameRect tail paintBorders pre painter :
  Forall (fun q => right frameRect < left (pageRect q)) tail ->
  paintPages s painter frameRect (pre ++ tail) paintBorders
  = paintPages s painter frameRect pre paintBorders.
Proof.
  intros Htail. revert painter.
  induction pre as [| p pre IH]; intros painter.
  - cbn [app]. rewrite paintPages_beyond by exact Htail. reflexivity.
  - rewrite <- app_comm_cons, !paintPages_cons, !IH. reflexivity.
Qed.

(** C1. For every visible region and every page list laid out with strictly
    increasing horizontal extents, [paintPages] paints exactly the pages
    that intersect the region horizontally, in layout order: the painter
    receives the calls of those pages and no others.  A page whose canvas
    rectangle lies entirely to the left of the region
    (pageRect.right < frameRect.left) is passed over, and the loop stops at
    the first page whose rectangle starts beyond the region's right edge
    (pageRect.left > frameRect.right): the pages from there on could as
    well be absent. *)
Theorem paintPages_culling s painter frameRect pages paintBorders :
  increasing_extents pages ->
  paintPages s painter frameRect pages paintBorders
  = painter
    ++ concat (map (pageCalls s paintBorders)
                 (List.filter (intersectsH frameRect) pages))
  /\ (forall pre page post,
        pages = pre ++ page :: post ->
        right (pageRect page) < left frameRect ->
        ~ In page (List.filter (intersectsH frameRect) pages)
        /\ paintPages s painter frameRect pages paintBorders
           = paintPages s painter frameRect (pre ++ post) paintBorders)
  /\ (forall pre page post,
        pages = pre ++ page :: post ->
        right frameRect < left (pageRect page) ->
        paintPages s painter frameRect pages paintBorders
        = paintPages s painter frameRect pre paintBorders).
Proof.
  intros Hsorted. split; [| split].
  - now apply paintPages_filter.
  - intros pre page post -> Hleft. split.
    + rewrite filter_In. intros [_ Hin]. unfold intersectsH in Hin.
      apply Qltb_true in Hleft. rewrite Hleft in Hin. discriminate.
    + now apply paintPages_skip.
  - intros pre page post -> Hright.
    apply paintPages_app_beyond.
    apply StronglySorted_app_1_r, StronglySorted_inv in Hsorted.
    destruct Hsorted as [_ Hpost].
    constructor; [exact Hright |].
    now apply further_right_beyond with (page := page).
Qed.

(** *** Borders *)

Lemma paintPageBorder_calls s painter page :
  paintPageBorder s painter page
  = painter ++ outerFrameCalls configuration page
    ++ (if showPageborders s
        then marginFrameCalls frameMarginColor page
             ++ (if isOdd page then [] else [marginRule page])
        else []).
Proof.
  unfold_border.
  unfold outerFrameCalls, marginFrameCalls, marginRule, marginRect.
  destruct (showPageborders s); [destruct (isOdd page) |];
    cbn [negb app]; rewrite <- ?app_assoc; reflexivity.
Qed.

Lemma lineDraws_app a b : lineDraws (a ++ b) = (lineDraws a + lineDraws b)%nat.
Proof. unfold lineDraws. now rewrite List.filter_app, length_app. Qed.

Lemma rectDraws_app a b : rectDraws (a ++ b) = (rectDraws a + rectDraws b)%nat.
Proof. unfold rectDraws. now rewrite List.filter_app, length_app. Qed.

(** C3. For any two pages painted with borders under identical conditions
    (the same score, the same painter) with the score's showPageborders
    flag set, [paintPageBorder] issues for a page with isOdd()==false
    exactly one more call than for a page with isOdd()==true, and that call
    is a line draw; when the two pages also agree in their geometry the
    calls are the same up to that last one, which is the vertical rule at
    the right margin.  When showPageborders is unset, only the outer frame
    rectangle is drawn, whatever the parity. *)
Theorem paintPageBorder_even_rule s painter even odd :
  isOdd even = false ->
  isOdd odd = true ->
  (showPageborders s = true ->
     lineDraws (paintPageBorder s painter even)
     = S (lineDraws (paintPageBorder s painter odd))
     /\ length (paintPageBorder s painter even)
        = S (length (paintPageBorder s painter odd))
     /\ rectDraws (paintPageBorder s painter even)
        = rectDraws (paintPageBorder s painter odd)
     /\ (same_geometry even odd ->
         paintPageBorder s painter even
         = paintPageBorder s painter odd ++ [marginRule even]))
  /\ (showPageborders s = false ->
      forall page,
        paintPageBorder s painter page
        = painter ++ outerFrameCalls configuration page).
Proof.
  intros Heven Hodd. split; intros Hshow.
  - rewrite !paintPageBorder_calls, Hshow, Heven, Hodd.
    repeat split.
    + rewrite !lineDraws_app. cbn. lia.
    + rewrite !length_app. cbn. lia.
    + rewrite !rectDraws_app. cbn. lia.
    + intros (Hc & Hl & Ht & Hr & Hb).
      unfold outerFrameCalls, marginFrameCalls, marginRect.
      rewrite Hc, Hl, Ht, Hr, Hb, app_nil_r.
      now rewrite <- !app_assoc.
  - intros page. rewrite paintPageBorder_calls, Hshow.
    now rewrite app_nil_r.
Qed.

(** *** The entry point *)

Local Abbreviation paint := (paint configuration frameMarginColor).

Lemma paintElements_rectDraws elements :
  rectDraws (paintElements [] elements) = O.
Proof.
  induction elements as [| e rest IH]; [reflexivity |].
  cbn [paintElements]. destruct (negb (visible e)); [exact IH |].
  rewrite paintElements_app, rectDraws_app, IH. reflexivity.
Qed.

(** Painting a page with borders is drawing its border, then painting it
    without. *)
Lemma pageCalls_borders s page :
  pageCalls s true page
  = paintPageBorder s [] page ++ pageCalls s false page.
Proof.
  change (pageCalls s true page)
    with (paintPage s false (paintPageBorder s [] page) page).
  apply paintPage_app.
Qed.

Lemma pageCalls_rectDraws s page :
  rectDraws (pageCalls s false page) = O.
Proof.
  unfold_page.
  rewrite paintElements_app, !rectDraws_app, paintElements_rectDraws.
  reflexivity.
Qed.

(** With borders disabled no rectangle is ever outlined. *)
Lemma paintPages_rectDraws s painter frameRect pages :
  rectDraws (paintPages s painter frameRect pages false) = rectDraws painter.
Proof.
  revert painter.
  induction pages as [| page rest IH]; intros painter; [reflexivity |].
  rewrite paintPages_cons.
  destruct (Qltb _ _); [apply IH |].
  destruct (Qltb _ _); [reflexivity |].
  rewrite IH, paintPage_app, rectDraws_app, pageCalls_rectDraws. lia.
Qed.

(** C2. [paint] with an empty page list issues no call on the painter and
    returns.  With a page list that is not empty: in the layout modes LINE
    and SYSTEM it paints the first page only, with borders disabled (no
    rectangle is outlined), and in the layout modes FLOAT and PAGE it
    paints all the pages, with borders enabled if and only if the score is
    not printing; the overlay of the interaction is painted last. *)
Theorem paint_by_layout_mode n s painter frameRect :
  m_score n = Some s ->
  (pages s = [] -> paint n painter frameRect = Some painter)
  /\ (forall first rest,
        pages s = first :: rest ->
        (layoutMode s = LINE \/ layoutMode s = SYSTEM ->
           paint n painter frameRect
           = Some (paintPages s painter frameRect [first] false
                     ++ [PaintInteraction])
           /\ paintPages s painter frameRect [first] false
              = painter ++ (if intersectsH frameRect first
                            then pageCalls s false first else [])
           /\ rectDraws (paintPages s painter frameRect [first] false)
              = rectDraws painter)
        /\ (layoutMode s = FLOAT \/ layoutMode s = PAGE ->
            paint n painter frameRect
            = Some (paintPages s painter frameRect (first :: rest)
                      (negb (printing s)) ++ [PaintInteraction])
            /\ (forall page,
                  pageCalls s (negb (printing s)) page
                  = (if printing s then [] else paintPageBorder s [] page)
                    ++ pageCalls s false page))).
Proof.
  intros Hscore. unfold_paint. rewrite Hscore.
  split; [intros ->; reflexivity |].
  intros first rest Hpages. rewrite Hpages. split.
  - intros Hmode. repeat split.
    + now destruct Hmode as [-> | ->].
    + rewrite paintPages_filter by (repeat constructor).
      cbn [List.filter]. destruct (intersectsH frameRect first); cbn.
      * now rewrite app_nil_r.
      * reflexivity.
    + apply paintPages_rectDraws.
  - intros Hmode. split.
    + now destruct Hmode as [-> | ->].
    + intros page. destruct (printing s); cbn [negb app]; [reflexivity |].
      apply pageCalls_borders.
Qed.

(** [paint] itself, when the pages handed to the loop are laid out with
    increasing extents: the calls of the intersecting pages, then the
    overlay. *)
Lemma paint_culling n s painter frameRect first rest :
  m_score n = Some s ->
  pages s = first :: rest ->
  increasing_extents (pages s) ->
  paint n painter frameRect
  = Some (painter
          ++ concat (map (pageCalls s (match layoutMode s with
                                       | LINE | SYSTEM => false
                                       | FLOAT | PAGE => negb (printing s)
                                       end))
                       (List.filter (intersectsH frameRect)
                          (match layoutMode s with
                           | LINE | SYSTEM => [first]
                           | FLOAT | PAGE => pages s
                           end)))
          ++ [PaintInteraction]).
Proof.
  intros Hscore Hpages Hsorted. unfold_paint. rewrite Hscore, Hpages.
  rewrite Hpages in Hsorted.
  destruct (layoutMode s);
    rewrite paintPages_filter by (first [exact Hsorted | repeat constructor]);
    now rewrite <- app_assoc.
Qed.

(** The order of the pages matters: a page that intersects the frame but
    comes after a page beyond it is not painted. *)
Lemma paintPages_unordered_sample :
  intersectsH sampleFrame (samplePage 120 false) = true
  /\ paintPages sampleScore [] sampleFrame
       [samplePage 240 true; samplePage 120 false] true = [].
Proof. split; reflexivity. Qed.

End Painting.

(** ** Metadata *)

Lemma metaTag_setMetaTag s key value key' :
  metaTag (setMetaTag s key value) key'
  = if decide (key = key') then value else metaTag s key'.
Proof.
  unfold metaTag, setMetaTag. cbn [metaTags].
  rewrite lookup_insert. now destruct (decide (key = key')).
Qed.

(** The score that [setMetaInfo] leaves behind. *)
Lemma setMetaInfo_score n s meta :
  m_score n = Some s ->
  setMetaInfo n meta
  = Some (with_score n
            (setMetaTag
               (setMetaTag
                  (setMetaTag
                     (setMetaTag
                        (setMetaTag
                           (setMetaTag
                              (setMetaTag s SUBTITLE_KEY (meta_subtitle meta))
                              COMPOSER_KEY (meta_composer meta))
                           LYRICIST_KEY (meta_lyricist meta))
                        COPYRIGHT_KEY (meta_copyright meta))
                     TRANSLATOR_KEY (meta_translator meta))
                  ARRANGER_KEY (meta_arranger meta))
               CREATION_DATE_KEY (toString (meta_creationDate meta)))).
Proof. intros Hscore. unfold setMetaInfo, score. now rewrite Hscore. Qed.

Ltac meta_tags :=
  repeat (rewrite metaTag_setMetaTag;
          match goal with
          | |- context [decide (?a = ?b)] =>
              destruct (decide (a = b)) as [? | ?];
              [try discriminate | try congruence]
          end);
  try reflexivity.

(** The six text fields come back as they were written. *)
Lemma metaInfo_setMetaInfo_texts n s meta :
  m_score n = Some s ->
  exists n' info,
    setMetaInfo n meta = Some n'
    /\ metaInfo n' = Some info
    /\ meta_subtitle info = meta_subtitle meta
    /\ meta_composer info = meta_composer meta
    /\ meta_lyricist info = meta_lyricist meta
    /\ meta_copyright info = meta_copyright meta
    /\ meta_translator info = meta_translator meta
    /\ meta_arranger info = meta_arranger meta.
Proof.
  intros Hscore. do 2 eexists.
  split; [apply (setMetaInfo_score _ _ _ Hscore) |].
  split; [reflexivity |].
  cbn [meta_subtitle meta_composer meta_lyricist meta_copyright
       meta_translator meta_arranger].
  repeat split; meta_tags.
Qed.

(** The text form of a valid date starts with the short name of a day and
    a blank. *)
Lemma toStringTextDate_head jd :
  exists name rest,
    In name shortDayNames
    /\ toStringTextDate jd = name +:+ " " +:+ rest.
Proof.
  unfold toStringTextDate.
  destruct (getDateFromJulianDay jd) as [[year month] day].
  eexists _, _. split; [| reflexivity].
  unfold shortDayName, shortDayNames.
  repeat match goal with
         | |- context [match ?d with _ => _ end] => destruct d
         end;
    cbn; tauto.
Qed.

(** Read as a year, the name of a day is no number. *)
Lemma toInt_day_name name rest :
  In name shortDayNames ->
  toInt (substring 0 4 (name +:+ " " +:+ rest)) = 0%Z.
Proof.
  unfold shortDayNames. cbn [In].
  intros H.
  repeat (destruct H as [<- | H]; [destruct rest; reflexivity |]).
  contradiction.
Qed.

(** What [toString()] writes is never read back by
    [fromString(..., Qt::ISODate)]: the text form is not the ISO form. *)
Lemma fromStringIsoDate_toString d :
  fromStringIsoDate (toString d) = nullDate.
Proof.
  destruct d as [jd |]; [| reflexivity].
  unfold toString, toStringFormat.
  destruct (toStringTextDate_head jd) as (name & rest & Hname & ->).
  unfold fromStringIsoDate.
  rewrite (toInt_day_name _ _ Hname).
  match goal with |- (if ?cond then _ else _) = _ => destruct cond end;
    reflexivity.
Qed.

(** Written in the ISO form, the sample date would be read back. *)
Lemma fromStringIsoDate_iso_sample :
  toStringFormat (mkDate 2020 5 20) ISODate = "2020-05-20"
  /\ fromStringIsoDate (toStringFormat (mkDate 2020 5 20) ISODate)
     = mkDate 2020 5 20.
Proof. split; reflexivity. Qed.

(** Whatever date is written, the date read back is the null date. *)
Lemma metaInfo_setMetaInfo_creationDate n s meta :
  m_score n = Some s ->
  exists n' info,
    setMetaInfo n meta = Some n'
    /\ metaInfo n' = Some info
    /\ meta_creationDate info = nullDate.
Proof.
  intros Hscore. do 2 eexists.
  split; [apply (setMetaInfo_score _ _ _ Hscore) |].
  split; [reflexivity |].
  cbn [meta_creationDate]. rewrite metaTag_setMetaTag.
  destruct (decide (CREATION_DATE_KEY = CREATION_DATE_KEY)); [| congruence].
  apply fromStringIsoDate_toString.
Qed.

(** C4, at an input where the code departs from it.  On a notation with an
    attached score, [setMetaInfo] followed by [metaInfo] returns the six
    text fields as written, but not the creation date: 20 May 2020 is
    stored as the text "Wed May 20 2020", which [metaInfo] parses as an ISO
    date, and the date that comes back is the null date. *)
Theorem setMetaInfo_metaInfo_sample :
  exists n' s' info,
    setMetaInfo sampleNotation sampleMeta = Some n'
    /\ m_score n' = Some s'
    /\ metaInfo n' = Some info
    /\ meta_subtitle info = meta_subtitle sampleMeta
    /\ meta_composer info = meta_composer sampleMeta
    /\ meta_lyricist info = meta_lyricist sampleMeta
    /\ meta_copyright info = meta_copyright sampleMeta
    /\ meta_translator info = meta_translator sampleMeta
    /\ meta_arranger info = meta_arranger sampleMeta
    /\ meta_creationDate sampleMeta = Some 2458990%Z
    /\ metaTag s' CREATION_DATE_KEY = "Wed May 20 2020"
    /\ meta_creationDate info = nullDate
    /\ meta_creationDate info <> meta_creationDate sampleMeta.
Proof.
  do 3 eexists.
  split; [apply (setMetaInfo_score sampleNotation sampleScore); reflexivity |].
  split; [reflexivity |].
  split; [reflexivity |].
  cbn [meta_subtitle meta_composer meta_lyricist meta_copyright
       meta_translator meta_arranger meta_creationDate sampleMeta].
  repeat split; meta_tags.
Qed.

(** C5, at an input where the code departs from it.  A notation constructed
    without a score has no score attached; [metaInfo] and [previewRect]
    dereference the score without a test, so neither has a result there:
    no empty [Meta], no empty rectangle. *)
Theorem metaInfo_previewRect_without_score :
  m_score (Notation_new None) = None
  /\ metaInfo (Notation_new None) = None
  /\ previewRect (Notation_new None) = None.
Proof. repeat split. Qed.

(** C10. [setMetaInfo] writes the seven fixed keys and nothing else: every
    other tag, the pages, the layout mode and the flags are as before, and
    so is the title, which [metaInfo] goes on to report from the score
    whatever title the written [Meta] carried. *)
Theorem setMetaInfo_keeps_title n s meta :
  m_score n = Some s ->
  exists s',
    setMetaInfo n meta = Some (with_score n s')
    /\ title s' = title s
    /\ (forall key, ~ In key metaKeys ->
          metaTags s' !! key = metaTags s !! key)
    /\ pages s' = pages s
    /\ layoutMode s' = layoutMode s
    /\ printing s' = printing s
    /\ showPageborders s' = showPageborders s
    /\ exists info,
         metaInfo (with_score n s') = Some info
         /\ meta_title info = title s.
Proof.
  intros Hscore. eexists.
  split; [apply (setMetaInfo_score _ _ _ Hscore) |].
  split; [reflexivity |].
  split.
  - intros key Hkey. unfold metaKeys in Hkey. cbn [In] in Hkey.
    unfold setMetaTag. cbn [metaTags].
    rewrite !lookup_insert_ne; [reflexivity | intros E; apply Hkey; tauto ..].
  - repeat split. eexists. split; reflexivity.
Qed.

(** ** View mode, preview and the opened flag *)

(** C6. [setViewMode] on a notation with no attached score changes nothing
    and notifies nobody.  On a notation with an attached score it sets the
    score's layout mode to the given mode, lays the score out again, and
    notifies of the change exactly once; nothing else changes. *)
Theorem setViewMode_effect (doLayout : Score -> Score) n mode :
  (m_score n = None -> setViewMode doLayout n mode = n)
  /\ (forall s,
        m_score n = Some s ->
        layoutMode (setLayoutMode s mode) = mode
        /\ m_score (setViewMode doLayout n mode)
           = Some (doLayout (setLayoutMode s mode))
        /\ m_notationChanged (setViewMode doLayout n mode)
           = S (m_notationChanged n)
        /\ m_opened (setViewMode doLayout n mode) = m_opened n
        /\ m_viewSize (setViewMode doLayout n mode) = m_viewSize n).
Proof.
  unfold setViewMode. split.
  - now intros ->.
  - intros s ->. repeat split.
Qed.

(** C7. For every boolean x, [setOpened x] when the opened value is already
    x sends nothing on the change channel and leaves the notation as it
    was; [setOpened (not x)] stores the new value and sends it on the
    channel once. *)
Theorem setOpened_dedup n x :
  val (m_opened n) = x ->
  setOpened n x = n
  /\ val (m_opened (setOpened n (negb x))) = negb x
  /\ ch (m_opened (setOpened n (negb x))) = ch (m_opened n) ++ [negb x]
  /\ length (ch (m_opened (setOpened n (negb x))))
     = S (length (ch (m_opened n)))
  /\ m_score (setOpened n (negb x)) = m_score n
  /\ m_notationChanged (setOpened n (negb x)) = m_notationChanged n
  /\ m_viewSize (setOpened n (negb x)) = m_viewSize n.
Proof.
  intros <-. unfold setOpened.
  rewrite Bool.eqb_reflx.
  replace (Bool.eqb (val (m_opened n)) (negb (val (m_opened n)))) with false
    by (now destruct (val (m_opened n))).
  cbn. rewrite length_app. cbn. repeat split. lia.
Qed.

(** C8. [viewMode] on a notation with no attached score is PAGE, whatever
    the rest of its state; with an attached score it is the score's current
    layout mode. *)
Theorem viewMode_default n :
  (m_score n = None -> viewMode n = PAGE)
  /\ (forall s, m_score n = Some s -> viewMode n = layoutMode s).
Proof.
  unfold viewMode. split; [now intros -> | now intros s ->].
Qed.

(** C9. [previewRect] on a notation whose attached score has no page is an
    empty rectangle (the null rectangle at the origin); with one page or
    more it is exactly the bounding box of the first page. *)
Theorem previewRect_first_page n s :
  m_score n = Some s ->
  (pages s = [] ->
     previewRect n = Some (mkQRectF 0 0 0 0)
     /\ isEmpty (mkQRectF 0 0 0 0) = true
     /\ isNull (mkQRectF 0 0 0 0) = true)
  /\ (forall first rest,
        pages s = first :: rest -> previewRect n = Some (bbox first)).
Proof.
  intros Hscore. unfold previewRect. rewrite Hscore. split.
  - intros ->. repeat split.
  - now intros first rest ->.
Qed.

(** ** The statements at the sample data *)

Lemma paintPages_culling_witness :
  increasing_extents samplePages
  /\ List.filter (intersectsH sampleFrame) samplePages = [samplePage 120 false]
  /\ paintPages sampleConfiguration sampleMarginColor sampleScore []
       sampleFrame samplePages true
     = [] ++ concat (map (pageCalls sampleConfiguration sampleMarginColor
                            sampleScore true)
                       (List.filter (intersectsH sampleFrame) samplePages)).
Proof.
  assert (H : increasing_extents samplePages).
  { repeat constructor; vm_compute; reflexivity. }
  split; [exact H |].
  split; [vm_compute; reflexivity |].
  exact (proj1 (paintPages_culling sampleConfiguration sampleMarginColor
                  sampleScore [] sampleFrame samplePages true H)).
Defined.

Lemma paint_by_layout_mode_witness :
  m_score sampleNotation = Some sampleScore
  /\ pages sampleScore = samplePage 0 true :: tl samplePages
  /\ layoutMode sampleScore = PAGE
  /\ paint sampleConfiguration sampleMarginColor sampleNotation [] sampleFrame
     = Some (paintPages sampleConfiguration sampleMarginColor sampleScore []
               sampleFrame samplePages (negb (printing sampleScore))
             ++ [PaintInteraction]).
Proof.
  assert (Hs : m_score sampleNotation = Some sampleScore) by reflexivity.
  assert (Hp : pages sampleScore = samplePage 0 true :: tl samplePages)
    by reflexivity.
  assert (Hm : layoutMode sampleScore = FLOAT \/ layoutMode sampleScore = PAGE)
    by (right; reflexivity).
  split; [exact Hs |]. split; [exact Hp |]. split; [reflexivity |].
  exact (proj1 (proj2 (proj2 (paint_by_layout_mode sampleConfiguration
                                sampleMarginColor sampleNotation sampleScore
                                [] sampleFrame Hs) _ _ Hp) Hm)).
Defined.

Lemma paintPageBorder_even_rule_witness :
  isOdd (samplePage 120 false) = false
  /\ isOdd (samplePage 120 true) = true
  /\ showPageborders sampleScore = true
  /\ lineDraws (paintPageBorder sampleConfiguration sampleMarginColor
                  sampleScore [] (samplePage 120 false))
     = S (lineDraws (paintPageBorder sampleConfiguration sampleMarginColor
                       sampleScore [] (samplePage 120 true))).
Proof.
  assert (He : isOdd (samplePage 120 false) = false) by reflexivity.
  assert (Ho : isOdd (samplePage 120 true) = true) by reflexivity.
  assert (Hs : showPageborders sampleScore = true) by reflexivity.
  split; [exact He |]. split; [exact Ho |]. split; [exact Hs |].
  exact (proj1 (proj1 (paintPageBorder_even_rule sampleConfiguration
                         sampleMarginColor sampleScore []
                         (samplePage 120 false) (samplePage 120 true) He Ho)
                  Hs)).
Defined.

Lemma setViewMode_effect_witness :
  m_score sampleNotation = Some sampleScore
  /\ m_notationChanged (setViewMode (fun s => s) sampleNotation LINE)
     = S (m_notationChanged sampleNotation)
  /\ m_score (Notation_new None) = None
  /\ setViewMode (fun s => s) (Notation_new None) LINE = Notation_new None.
Proof.
  assert (Hs : m_score sampleNotation = Some sampleScore) by reflexivity.
  assert (Hn : m_score (Notation_new None) = None) by reflexivity.
  split; [exact Hs |].
  split.
  - exact (proj1 (proj2 (proj2 (proj2 (setViewMode_effect (fun s => s)
                                          sampleNotation LINE)
                                   sampleScore Hs)))).
  - split; [exact Hn |].
    exact (proj1 (setViewMode_effect (fun s => s) (Notation_new None) LINE) Hn).
Defined.

Lemma setOpened_dedup_witness :
  val (m_opened sampleNotation) = false
  /\ setOpened sampleNotation false = sampleNotation
  /\ ch (m_opened (setOpened sampleNotation (negb false)))
     = ch (m_opened sampleNotation) ++ [negb false].
Proof.
  assert (H : val (m_opened sampleNotation) = false) by reflexivity.
  split; [exact H |].
  split.
  - exact (proj1 (setOpened_dedup sampleNotation false H)).
  - exact (proj1 (proj2 (proj2 (setOpened_dedup sampleNotation false H)))).
Defined.

Lemma viewMode_default_witness :
  m_score (Notation_new None) = None
  /\ viewMode (Notation_new None) = PAGE
  /\ m_score (Notation_new (Some sampleEmptyScore)) = Some sampleEmptyScore
  /\ viewMode (Notation_new (Some sampleEmptyScore)) = layoutMode sampleEmptyScore.
Proof.
  assert (Hn : m_score (Notation_new None) = None) by reflexivity.
  assert (Hs : m_score (Notation_new (Some sampleEmptyScore))
               = Some sampleEmptyScore) by reflexivity.
  split; [exact Hn |].
  split; [exact (proj1 (viewMode_default (Notation_new None)) Hn) |].
  split; [exact Hs |].
  exact (proj2 (viewMode_default (Notation_new (Some sampleEmptyScore)))
           sampleEmptyScore Hs).
Defined.

Lemma previewRect_first_page_witness :
  m_score sampleNotation = Some sampleScore
  /\ pages sampleScore = samplePage 0 true :: tl samplePages
  /\ previewRect sampleNotation = Some (bbox (samplePage 0 true))
  /\ m_score (Notation_new (Some sampleEmptyScore)) = Some sampleEmptyScore
  /\ pages sampleEmptyScore = []
  /\ previewRect (Notation_new (Some sampleEmptyScore))
     = Some (mkQRectF 0 0 0 0).
Proof.
  assert (Hs : m_score sampleNotation = Some sampleScore) by reflexivity.
  assert (Hp : pages sampleScore = samplePage 0 true :: tl samplePages)
    by reflexivity.
  assert (He : m_score (Notation_new (Some sampleEmptyScore))
               = Some sampleEmptyScore) by reflexivity.
  assert (Hq : pages sampleEmptyScore = []) by reflexivity.
  split; [exact Hs |]. split; [exact Hp |].
  split; [exact (proj2 (previewRect_first_page sampleNotation sampleScore Hs)
                   _ _ Hp) |].
  split; [exact He |]. split; [exact Hq |].
  exact (proj1 (proj1 (previewRect_first_page
                         (Notation_new (Some sampleEmptyScore))
                         sampleEmptyScore He) Hq)).
Defined.

Lemma setMetaInfo_keeps_title_witness :
  m_score sampleNotation = Some sampleScore
  /\ exists s',
       setMetaInfo sampleNotation sampleMeta = Some (with_score sampleNotation s')
       /\ title s' = "Sonata".
Proof.
  assert (Hs : m_score sampleNotation = Some sampleScore) by reflexivity.
  split; [exact Hs |].
  destruct (setMetaInfo_keeps_title sampleNotation sampleScore sampleMeta Hs)
    as (s' & Hset & Htitle & _).
  exists s'. split; [exact Hset | exact Htitle].
Defined.

(** ** More about painting *)

Section Culling.

Variable configuration : INotationConfiguration.
Variable frameMarginColor : QColor.

Local Abbreviation paintPages := (paintPages configuration frameMarginColor).
Local Abbreviation pageCalls := (pageCalls configuration frameMarginColor).
Local Abbreviation paint := (paint configuration frameMarginColor).

(** The loop of [paintPages], whatever the order of the pages. *)
Lemma paintPages_beforeBreak s painter frameRect pages paintBorders :
  paintPages s painter frameRect pages paintBorders
  = painter
    ++ concat (map (pageCalls s paintBorders)
                 (List.filter (intersectsH frameRect)
                    (beforeBreak frameRect pages))).
Proof.
  revert painter.
  induction pages as [| page rest IH]; intros painter.
  - cbn. now rewrite app_nil_r.
  - rewrite paintPages_cons. cbn [beforeBreak].
    destruct (Qltb (right (pageRect page)) (left frameRect)) eqn:Hleft.
    + cbn [negb andb List.filter]. unfold intersectsH at 1.
      rewrite Hleft. cbn [negb andb]. apply IH.
    + cbn [negb andb].
      destruct (Qltb (right frameRect) (left (pageRect page))) eqn:Hright.
      * cbn. now rewrite app_nil_r.
      * cbn [List.filter]. unfold intersectsH at 1.
        rewrite Hleft, Hright. cbn [negb andb map concat].
        rewrite IH, paintPage_app. now rewrite <- app_assoc.
Qed.

Lemma beforeBreak_prefix frameRect pages :
  exists post, pages = beforeBreak frameRect pages ++ post.
Proof.
  induction pages as [| page rest [post IH]]; [now exists [] |].
  cbn [beforeBreak].
  destruct (negb _ && _).
  - now exists (page :: rest).
  - exists post. cbn [app]. now rewrite <- IH.
Qed.

(** X1. Whatever the order of the pages, [paintPages] paints only pages
    that intersect the frame horizontally, each at most once and in layout
    order: the pages painted are a sublist of the page list, and every one
    of them intersects the frame. *)
Theorem paintPages_paints_only_visible s painter frameRect pages paintBorders :
  exists painted,
    sublist painted pages
    /\ Forall (fun page => intersectsH frameRect page = true) painted
    /\ paintPages s painter frameRect pages paintBorders
       = painter ++ concat (map (pageCalls s paintBorders) painted).
Proof.
  exists (List.filter (intersectsH frameRect) (beforeBreak frameRect pages)).
  split; [| split].
  - destruct (beforeBreak_prefix frameRect pages) as [post Hpost].
    rewrite Hpost at 2.
    apply sublist_inserts_r.
    generalize (beforeBreak frameRect pages). intros l.
    induction l as [| p l IH]; [constructor |].
    cbn [List.filter]. destruct (intersectsH frameRect p);
      [now apply sublist_skip | now apply sublist_cons].
  - apply List.Forall_forall. intros page Hin.
    now apply List.filter_In in Hin.
  - apply paintPages_beforeBreak.
Qed.

(** X2. Whatever the order of the pages, [paintPages] looks at the pages up
    to the first one that starts beyond the right edge of the frame without
    lying to its left, and paints those of them that intersect the frame;
    the pages from that one on have no influence. *)
Theorem paintPages_any_order s painter frameRect pages paintBorders :
  paintPages s painter frameRect pages paintBorders
  = painter
    ++ concat (map (pageCalls s paintBorders)
                 (List.filter (intersectsH frameRect)
                    (beforeBreak frameRect pages)))
  /\ (exists post, pages = beforeBreak frameRect pages ++ post)
  /\ (forall pages',
        beforeBreak frameRect pages' = beforeBreak frameRect pages ->
        paintPages s painter frameRect pages' paintBorders
        = paintPages s painter frameRect pages paintBorders).
Proof.
  split; [apply paintPages_beforeBreak |].
  split; [apply beforeBreak_prefix |].
  intros pages' Heq. now rewrite !paintPages_beforeBreak, Heq.
Qed.

End Culling.

Section Elements.

Variable configuration : INotationConfiguration.
Variable frameMarginColor : QColor.

Local Abbreviation paintPageBorder :=
  (paintPageBorder configuration frameMarginColor).
Local Abbreviation paintPages := (paintPages configuration frameMarginColor).
Local Abbreviation pageCalls := (pageCalls configuration frameMarginColor).
Local Abbreviation paint := (paint configuration frameMarginColor).

(** The four calls that [paintElements] issues for a visible element. *)
Lemma paintElements_calls painter elements :
  paintElements painter elements
  = painter
    ++ flat_map (fun e => [ResetItemDiscovered e; Translate (pagePos e);
                           DrawElement e; Translate (negated (pagePos e))])
         (List.filter visible elements).
Proof.
  revert painter.
  induction elements as [| e rest IH]; intros painter;
    cbn [paintElements List.filter].
  - cbn. now rewrite app_nil_r.
  - destruct (visible e); cbn [negb]; [| apply IH].
    rewrite IH. unfold Painter.translate. cbn [flat_map app].
    now rewrite <- !app_assoc.
Qed.

Lemma drawnElements_app a b :
  drawnElements (a ++ b) = drawnElements a ++ drawnElements b.
Proof.
  induction a as [| c a IH]; [reflexivity |].
  destruct c; cbn [app drawnElements]; rewrite IH; reflexivity.
Qed.

Lemma resetElements_app a b :
  resetElements (a ++ b) = resetElements a ++ resetElements b.
Proof.
  induction a as [| c a IH]; [reflexivity |].
  destruct c; cbn [app resetElements]; rewrite IH; reflexivity.
Qed.

(** X3. [paintElements] asks exactly the visible elements to draw
    themselves, in the order of the list, each between a translation to its
    page position and the translation back, after clearing its
    [itemDiscovered] mark; an element that is not visible gets no call at
    all and keeps its mark. *)
Theorem paintElements_visible_in_order painter elements :
  paintElements painter elements
  = painter
    ++ flat_map (fun e => [ResetItemDiscovered e; Translate (pagePos e);
                           DrawElement e; Translate (negated (pagePos e))])
         (List.filter visible elements)
  /\ drawnElements (paintElements painter elements)
     = drawnElements painter ++ List.filter visible elements
  /\ resetElements (paintElements painter elements)
     = resetElements painter ++ List.filter visible elements.
Proof.
  split; [apply paintElements_calls |].
  rewrite paintElements_calls, drawnElements_app, resetElements_app.
  split; f_equal.
  - induction (List.filter visible elements) as [| e l IH];
      [reflexivity | cbn; now rewrite IH].
  - induction (List.filter visible elements) as [| e l IH];
      [reflexivity | cbn; now rewrite IH].
Qed.

(** The calls for one page, spelled out. *)
Lemma pageCalls_calls s paintBorders page :
  pageCalls s paintBorders page
  = (if paintBorders then paintPageBorder s [] page else [])
    ++ Translate (pos page)
       :: FillRect (bbox page) (pageColor configuration)
       :: paintElements [] (elements page)
    ++ [Translate (negated (pos page))].
Proof.
  destruct paintBorders.
  - rewrite pageCalls_borders. f_equal.
    unfold_page. rewrite paintElements_app. reflexivity.
  - unfold_page. rewrite paintElements_app. reflexivity.
Qed.

Lemma drawnElements_border s page :
  drawnElements (paintPageBorder s [] page) = [].
Proof.
  rewrite paintPageBorder_calls.
  destruct (showPageborders s); [destruct (isOdd page) |]; reflexivity.
Qed.

Lemma drawnElements_paintElements elements :
  drawnElements (paintElements [] elements) = List.filter visible elements.
Proof.
  rewrite paintElements_calls. cbn [app].
  induction (List.filter visible elements) as [| e l IH];
    [reflexivity | cbn; now rewrite IH].
Qed.

Lemma drawnElements_pageCalls s paintBorders page :
  drawnElements (pageCalls s paintBorders page)
  = List.filter visible (elements page).
Proof.
  rewrite pageCalls_calls, drawnElements_app.
  replace (drawnElements (if paintBorders then paintPageBorder s [] page else []))
    with (@nil Element)
    by (destruct paintBorders; [now rewrite drawnElements_border | reflexivity]).
  cbn [app drawnElements].
  rewrite drawnElements_app, drawnElements_paintElements.
  cbn. now rewrite app_nil_r.
Qed.

(** X4. [paintPages] asks the visible elements of the painted pages to draw
    themselves and no others: page by page in layout order, and within a
    page in the order of its element list. *)
Theorem paintPages_draws_visible_elements s painter frameRect pages paintBorders :
  drawnElements (paintPages s painter frameRect pages paintBorders)
  = drawnElements painter
    ++ flat_map (fun page => List.filter visible (elements page))
         (List.filter (intersectsH frameRect) (beforeBreak frameRect pages)).
Proof.
  rewrite paintPages_beforeBreak, drawnElements_app. f_equal.
  induction (List.filter (intersectsH frameRect) (beforeBreak frameRect pages))
    as [| page l IH]; [reflexivity |].
  cbn [map concat flat_map].
  now rewrite drawnElements_app, drawnElements_pageCalls, IH.
Qed.

End Elements.

(** *** Where things are drawn *)

Lemma peq_refl a : peq a a.
Proof. split; reflexivity. Qed.

Lemma peq_sym a b : peq a b -> peq b a.
Proof. intros [Hx Hy]. split; now symmetry. Qed.




Lemma same_places_refl {A : Type} (l : list (A * QPointF)) : same_places l l.
Proof.
  induction l; constructor; [split; [reflexivity | apply peq_refl] | assumption].
Qed.













Section Placement.

Variable configuration : INotationConfiguration.
Variable frameMarginColor : QColor.

Local Abbreviation paintPageBorder :=
  (paintPageBorder configuration frameMarginColor).
Local Abbreviation paintPages := (paintPages configuration frameMarginColor).
Local Abbreviation pageCalls := (pageCalls configuration frameMarginColor).
Local Abbreviation paint := (paint configuration frameMarginColor).










End Placement.

Section Entry.

Variable configuration : INotationConfiguration.
Variable frameMarginColor : QColor.

Local Abbreviation paintPageBorder :=
  (paintPageBorder configuration frameMarginColor).
Local Abbreviation paintPages := (paintPages configuration frameMarginColor).
Local Abbreviation pageCalls := (pageCalls configuration frameMarginColor).
Local Abbreviation paint := (paint configuration frameMarginColor).




Lemma pageCalls_lineDraws s page :
  lineDraws (pageCalls s false page) = O.
Proof.
  rewrite pageCalls_calls. cbn [app]. unfold lineDraws.
  cbn [List.filter isDrawLine].
  rewrite List.filter_app, paintElements_calls. cbn [app].
  replace (List.filter isDrawLine
             (flat_map (fun e => [ResetItemDiscovered e; Translate (pagePos e);
                                  DrawElement e; Translate (negated (pagePos e))])
                (List.filter visible (elements page))))
    with (@nil PainterCall); [reflexivity |].
  induction (List.filter visible (elements page)) as [| e l IH];
    [reflexivity | exact IH].
Qed.

Lemma paintPages_plain s painter frameRect pages :
  rectDraws (paintPages s painter frameRect pages false) = rectDraws painter
  /\ lineDraws (paintPages s painter frameRect pages false) = lineDraws painter.
Proof.
  rewrite paintPages_beforeBreak, rectDraws_app, lineDraws_app.
  induction (List.filter (intersectsH frameRect) (beforeBreak frameRect pages))
    as [| page l [IHr IHl]]; [cbn; lia |].
  cbn [map concat].
  rewrite rectDraws_app, lineDraws_app, pageCalls_rectDraws, pageCalls_lineDraws.
  lia.
Qed.

(** X8. In the layout modes LINE and SYSTEM, and in any layout mode while
    the score is printing, [paint] draws no border: it outlines no
    rectangle and draws no line. *)
Theorem paint_without_borders n s painter frameRect :
  m_score n = Some s ->
  layoutMode s = LINE \/ layoutMode s = SYSTEM \/ printing s = true ->
  exists painter',
    paint n painter frameRect = Some painter'
    /\ rectDraws painter' = rectDraws painter
    /\ lineDraws painter' = lineDraws painter.
Proof.
  intros Hscore Hmode. unfold_paint. rewrite Hscore.
  destruct (pages s) as [| first rest]; [now eexists |].
  assert (Hplain : forall ps painter',
             painter' = paintPages s painter frameRect ps false ->
             rectDraws (painter' ++ [PaintInteraction]) = rectDraws painter
             /\ lineDraws (painter' ++ [PaintInteraction]) = lineDraws painter).
  { intros ps painter' ->.
    rewrite rectDraws_app, lineDraws_app.
    destruct (paintPages_plain s painter frameRect ps) as [-> ->].
    cbn. lia. }
  destruct Hmode as [Hm | [Hm | Hp]].
  - rewrite Hm. eexists. split; [reflexivity | now eapply Hplain].
  - rewrite Hm. eexists. split; [reflexivity | now eapply Hplain].
  - rewrite Hp. cbn [negb].
    destruct (layoutMode s);
      (eexists; split; [reflexivity | now eapply Hplain]).
Qed.

(** [paintPages] reads the score only for its [showPageborders] flag. *)
Lemma paintPages_score s1 s2 painter frameRect pages paintBorders :
  showPageborders s1 = showPageborders s2 ->
  paintPages s1 painter frameRect pages paintBorders
  = paintPages s2 painter frameRect pages paintBorders.
Proof.
  intros Hflag. revert painter.
  induction pages as [| page rest IH]; intros painter; [reflexivity |].
  rewrite !paintPages_cons, !IH.
  replace (paintPage configuration frameMarginColor s1 paintBorders painter page)
    with (paintPage configuration frameMarginColor s2 paintBorders painter page);
    [reflexivity |].
  unfold paintPage. destruct paintBorders; [| reflexivity].
  now rewrite (paintPageBorder_calls _ _ s1), (paintPageBorder_calls _ _ s2), Hflag.
Qed.

(** X9. In the layout modes LINE and SYSTEM, [paint] depends on the first
    page of the score only: the pages after it could as well be absent. *)
Theorem paint_line_first_page_only n s painter frameRect first rest :
  m_score n = Some s ->
  pages s = first :: rest ->
  layoutMode s = LINE \/ layoutMode s = SYSTEM ->
  paint n painter frameRect
  = paint (with_score n (with_pages s [first])) painter frameRect.
Proof.
  intros Hscore Hpages Hmode. unfold_paint. rewrite Hscore.
  cbn [m_score with_score with_pages pages layoutMode]. rewrite Hpages.
  destruct Hmode as [-> | ->];
    now rewrite (paintPages_score s (with_pages s [first])).
Qed.


End Entry.

(** ** More about metadata *)

Lemma setMetaInfo_tags_overwritten (tags : gmap string string)
    (a1 a2 a3 a4 a5 a6 a7 b1 b2 b3 b4 b5 b6 b7 : string) :
  <[CREATION_DATE_KEY := b7]>
    (<[ARRANGER_KEY := b6]>
       (<[TRANSLATOR_KEY := b5]>
          (<[COPYRIGHT_KEY := b4]>
             (<[LYRICIST_KEY := b3]>
                (<[COMPOSER_KEY := b2]>
                   (<[SUBTITLE_KEY := b1]>
                      (<[CREATION_DATE_KEY := a7]>
                         (<[ARRANGER_KEY := a6]>
                            (<[TRANSLATOR_KEY := a5]>
                               (<[COPYRIGHT_KEY := a4]>
                                  (<[LYRICIST_KEY := a3]>
                                     (<[COMPOSER_KEY := a2]>
                                        (<[SUBTITLE_KEY := a1]> tags)))))))))))))
  = <[CREATION_DATE_KEY := b7]>
      (<[ARRANGER_KEY := b6]>
         (<[TRANSLATOR_KEY := b5]>
            (<[COPYRIGHT_KEY := b4]>
               (<[LYRICIST_KEY := b3]>
                  (<[COMPOSER_KEY := b2]>
                     (<[SUBTITLE_KEY := b1]> tags)))))).
Proof.
  apply map_eq. intros key.
  rewrite !lookup_insert.
  repeat case_decide; reflexivity.
Qed.

(** The score that [setMetaInfo] leaves behind, field by field. *)
Lemma setMetaInfo_tags n s meta :
  m_score n = Some s ->
  setMetaInfo n meta
  = Some (with_score n
            {| title := title s;
               metaTags :=
                 <[CREATION_DATE_KEY := toString (meta_creationDate meta)]>
                   (<[ARRANGER_KEY := meta_arranger meta]>
                      (<[TRANSLATOR_KEY := meta_translator meta]>
                         (<[COPYRIGHT_KEY := meta_copyright meta]>
                            (<[LYRICIST_KEY := meta_lyricist meta]>
                               (<[COMPOSER_KEY := meta_composer meta]>
                                  (<[SUBTITLE_KEY := meta_subtitle meta]>
                                     (metaTags s)))))));
               pages := pages s;
               layoutMode := layoutMode s;
               printing := printing s;
               showPageborders := showPageborders s |}).
Proof. intros Hscore. unfold setMetaInfo, score. now rewrite Hscore. Qed.

(** X12. Of two calls of [setMetaInfo] in a row only the second one shows:
    the notation is left exactly as if the first had not been made.  In
    particular, writing the same [Meta] twice is the same as writing it
    once.  (Without a score neither call has a result.) *)
Theorem setMetaInfo_overwrites n meta1 meta2 :
  (setMetaInfo n meta1 ≫= fun n' => setMetaInfo n' meta2)
  = setMetaInfo n meta2.
Proof.
  destruct (m_score n) as [s |] eqn:Hscore.
  - rewrite (setMetaInfo_tags n s meta1 Hscore).
    match goal with
    | |- Some ?x ≫= _ = _ =>
        change (setMetaInfo x meta2 = setMetaInfo n meta2)
    end.
    erewrite setMetaInfo_tags by reflexivity.
    rewrite (setMetaInfo_tags n s meta2 Hscore).
    cbv [with_score m_opened m_notationChanged m_viewSize
         title metaTags pages layoutMode printing showPageborders].
    now rewrite setMetaInfo_tags_overwritten.
  - unfold setMetaInfo, score. now rewrite Hscore.
Qed.

(** ** More about the opened flag, the view mode and notifications *)

Lemma last_cons_default (x d : bool) rest :
  List.last (x :: rest) d = List.last rest x.
Proof.
  revert x d. induction rest as [| y rest IH]; intros x d; [reflexivity |].
  change (List.last (x :: y :: rest) d) with (List.last (y :: rest) d).
  now rewrite (IH y d), (IH y x).
Qed.

Lemma setOpened_run xs :
  forall n,
    ch (m_opened (fold_left setOpened xs n))
    = ch (m_opened n) ++ changes (val (m_opened n)) xs
    /\ val (m_opened (fold_left setOpened xs n)) = List.last xs (val (m_opened n))
    /\ m_score (fold_left setOpened xs n) = m_score n
    /\ m_notationChanged (fold_left setOpened xs n) = m_notationChanged n
    /\ m_viewSize (fold_left setOpened xs n) = m_viewSize n.
Proof.
  induction xs as [| x rest IH]; intros n.
  - cbn. now rewrite app_nil_r.
  - cbn [fold_left changes]. rewrite last_cons_default.
    destruct (IH (setOpened n x)) as (Hch & Hval & Hs & Hn & Hv).
    rewrite Hch, Hval, Hs, Hn, Hv. unfold setOpened.
    destruct (Bool.eqb (val (m_opened n)) x) eqn:E.
    + apply Bool.eqb_prop in E. subst x. repeat split.
    + cbn. rewrite <- app_assoc. repeat split.
Qed.

(** No value sent on the channel repeats the one before it. *)
Lemma changes_alternate current xs :
  forall i x y,
    (current :: changes current xs) !! i = Some x ->
    (current :: changes current xs) !! S i = Some y ->
    y = negb x.
Proof.
  revert current.
  induction xs as [| z rest IH]; intros current i x y Hx Hy.
  - destruct i; discriminate.
  - cbn [changes] in Hx, Hy.
    destruct (Bool.eqb current z) eqn:E; [now apply (IH current i) |].
    destruct i as [| i].
    + cbn in Hx, Hy. injection Hx as <-. injection Hy as <-.
      now destruct current, z.
    + apply (IH z i); assumption.
Qed.

Lemma changes_length current xs :
  (length (changes current xs) <= length xs)%nat.
Proof.
  revert current.
  induction xs as [| x rest IH]; intros c; [cbn; lia |].
  cbn [changes length]. destruct (Bool.eqb c x).
  - specialize (IH c). lia.
  - specialize (IH x). cbn [length]. lia.
Qed.

(** X13. After any run of [setOpened] calls the channel has received, in
    order, exactly the values that differed from the value in force when
    they were set: so the values sent alternate, none repeats the one
    before it (or, for the first, the value at the start), and the value
    stored is the last one set.  Nothing else in the notation changes. *)
Theorem setOpened_run_alternates n xs :
  let n' := fold_left setOpened xs n in
  ch (m_opened n') = ch (m_opened n) ++ changes (val (m_opened n)) xs
  /\ (forall i x y,
        (val (m_opened n) :: changes (val (m_opened n)) xs) !! i = Some x ->
        (val (m_opened n) :: changes (val (m_opened n)) xs) !! S i = Some y ->
        y = negb x)
  /\ val (m_opened n') = List.last xs (val (m_opened n))
  /\ (length (changes (val (m_opened n)) xs) <= length xs)%nat
  /\ m_score n' = m_score n
  /\ m_notationChanged n' = m_notationChanged n
  /\ m_viewSize n' = m_viewSize n.
Proof.
  cbn zeta.
  destruct (setOpened_run xs n) as (Hch & Hval & Hs & Hn & Hv).
  split; [exact Hch |].
  split; [apply changes_alternate |].
  split; [exact Hval |].
  split; [apply changes_length | now repeat split].
Qed.

Ltac unfold_setViewMode := unfold setViewMode.

Section ViewMode.

Variable doLayout : Score -> Score.

Local Abbreviation setViewMode := (setViewMode doLayout).

(** X14. If the engine's layout pass keeps the layout mode it is given,
    [viewMode] after [setViewMode mode] is [mode] when a score is attached;
    when none is, it is still PAGE. *)
Theorem viewMode_setViewMode n mode :
  (forall s, layoutMode (doLayout s) = layoutMode s) ->
  viewMode (setViewMode n mode)
  = match m_score n with Some _ => mode | None => PAGE end.
Proof.
  intros Hkeep. unfold viewMode. unfold_setViewMode.
  destruct (m_score n) as [s |] eqn:Hscore.
  - cbn. now rewrite Hkeep.
  - now rewrite Hscore.
Qed.

Lemma setViewMode_run s modes :
  forall n,
    m_score n = Some s ->
    exists s',
      m_score (fold_left setViewMode modes n) = Some s'
      /\ m_notationChanged (fold_left setViewMode modes n)
         = (m_notationChanged n + length modes)%nat
      /\ m_opened (fold_left setViewMode modes n) = m_opened n
      /\ m_viewSize (fold_left setViewMode modes n) = m_viewSize n.
Proof.
  revert s.
  induction modes as [| mode rest IH]; intros s n Hscore.
  - exists s. cbn. repeat split; [exact Hscore | lia].
  - cbn [fold_left length].
    destruct (IH (doLayout (setLayoutMode s mode)) (setViewMode n mode))
      as (s' & Hs & Hn & Ho & Hv).
    { unfold_setViewMode. now rewrite Hscore. }
    exists s'. rewrite Hs, Hn, Ho, Hv.
    unfold_setViewMode. rewrite Hscore. cbn.
    repeat split. lia.
Qed.

(** X15. [setViewMode] does not compare the mode with the current one: on a
    notation with a score, a run of calls lays the score out again and
    notifies of the change once per call, whether or not the mode is new;
    without a score a run of calls leaves the notation as it was.  The
    opened flag and the view size are not touched. *)
Theorem setViewMode_run_notifies n modes :
  (m_score n = None -> fold_left setViewMode modes n = n)
  /\ (is_Some (m_score n) ->
      is_Some (m_score (fold_left setViewMode modes n))
      /\ m_notationChanged (fold_left setViewMode modes n)
         = (m_notationChanged n + length modes)%nat
      /\ m_opened (fold_left setViewMode modes n) = m_opened n
      /\ m_viewSize (fold_left setViewMode modes n) = m_viewSize n).
Proof.
  split.
  - intros Hnone. induction modes as [| mode rest IH]; [reflexivity |].
    cbn [fold_left].
    replace (setViewMode n mode) with n; [exact IH |].
    unfold_setViewMode. now rewrite Hnone.
  - intros [s Hscore].
    destruct (setViewMode_run s modes n Hscore) as (s' & Hs & Hrest).
    split; [now exists s' | exact Hrest].
Qed.

End ViewMode.

(** X16. The notation republishes the change signals of its components one
    for one: after any run of signals the unified change notification has
    been emitted once for every note-added, drag, text-editing, drop,
    note-changed, style and parts signal, and not at all for selection
    signals; nothing is merged, and the score, the opened flag and the view
    size are not touched. *)
Theorem notationChanged_fan_in n signals :
  m_notationChanged (fold_left onNotify signals n)
  = (m_notationChanged n
     + length (List.filter
                 (fun sig => match sig with
                             | SelectionChanged => false
                             | _ => true
                             end) signals))%nat
  /\ m_score (fold_left onNotify signals n) = m_score n
  /\ m_opened (fold_left onNotify signals n) = m_opened n
  /\ m_viewSize (fold_left onNotify signals n) = m_viewSize n.
Proof.
  revert n.
  induction signals as [| sig rest IH]; intros n.
  - cbn. repeat split. lia.
  - cbn [fold_left List.filter].
    destruct (IH (onNotify n sig)) as (Hn & Hs & Ho & Hv).
    rewrite Hn, Hs, Ho, Hv.
    destruct sig; cbn; repeat split; lia.
Qed.

(** ** Painting and the rest of the state *)

Section Frame.

Variable configuration : INotationConfiguration.
Variable frameMarginColor : QColor.

Local Abbreviation paintPageBorder :=
  (paintPageBorder configuration frameMarginColor).
Local Abbreviation paintPages := (paintPages configuration frameMarginColor).
Local Abbreviation pageCalls := (pageCalls configuration frameMarginColor).
Local Abbreviation paint := (paint configuration frameMarginColor).


Lemma border_counts s page :
  rectDraws (paintPageBorder s [] page)
  = (if showPageborders s then 2 else 1)%nat
  /\ lineDraws (paintPageBorder s [] page)
     = (if showPageborders s && negb (isOdd page) then 1 else 0)%nat.
Proof.
  rewrite paintPageBorder_calls.
  destruct (showPageborders s); [destruct (isOdd page) |]; split; reflexivity.
Qed.

(** X18. With borders enabled, [paintPages] outlines one rectangle for
    every page it paints, and two when the score's showPageborders flag is
    set; it draws one line for every even page it paints when the flag is
    set, and none otherwise. *)
Theorem paintPages_border_counts s frameRect pages :
  let painted :=
    List.filter (intersectsH frameRect) (beforeBreak frameRect pages) in
  rectDraws (paintPages s [] frameRect pages true)
  = (length painted * (if showPageborders s then 2 else 1))%nat
  /\ lineDraws (paintPages s [] frameRect pages true)
     = (if showPageborders s
        then length (List.filter (fun page => negb (isOdd page)) painted)
        else 0)%nat.
Proof.
  cbn zeta. rewrite paintPages_beforeBreak. cbn [app].
  induction (List.filter (intersectsH frameRect) (beforeBreak frameRect pages))
    as [| page l [IHr IHl]].
  - split; [reflexivity | now destruct (showPageborders s)].
  - cbn [map concat List.filter length].
    rewrite rectDraws_app, lineDraws_app, IHr, IHl, pageCalls_borders.
    rewrite rectDraws_app, lineDraws_app, pageCalls_rectDraws.
    rewrite (pageCalls_lineDraws configuration frameMarginColor).
    destruct (border_counts s page) as [-> ->].
    destruct (showPageborders s), (isOdd page); cbn; split; lia.
Qed.

End Frame.

(** X11. On a notation with a score, [metaInfo] after [setMetaInfo] gives
    back the subtitle, composer, lyricist, copyright, translator and
    arranger exactly as they were written, whatever tags the score had
    before; the title is the score's own, and the creation date is what the
    ISO reader makes of the text that was stored for it. *)
Theorem metaInfo_after_setMetaInfo n s meta :
  m_score n = Some s ->
  (setMetaInfo n meta ≫= metaInfo)
  = Some {| meta_title := title s;
            meta_subtitle := meta_subtitle meta;
            meta_composer := meta_composer meta;
            meta_lyricist := meta_lyricist meta;
            meta_copyright := meta_copyright meta;
            meta_translator := meta_translator meta;
            meta_arranger := meta_arranger meta;
            meta_creationDate :=
              fromStringIsoDate (toString (meta_creationDate meta)) |}.
Proof.
  intros Hscore. rewrite (setMetaInfo_score _ _ _ Hscore).
  cbn [mbind option_bind]. unfold metaInfo, score.
  cbn [m_score with_score]. f_equal. f_equal; meta_tags.
Qed.

(** ** The further statements at the sample data *)

Lemma paintPages_any_order_witness :
  beforeBreak sampleFrame [samplePage 120 false; samplePage 240 true]
  = beforeBreak sampleFrame
      [samplePage 120 false; samplePage 240 true; samplePage 130 true]
  /\ paintPages sampleConfiguration sampleMarginColor sampleScore []
       sampleFrame [samplePage 120 false; samplePage 240 true] true
     = paintPages sampleConfiguration sampleMarginColor sampleScore []
         sampleFrame
         [samplePage 120 false; samplePage 240 true; samplePage 130 true] true.
Proof.
  assert (H : beforeBreak sampleFrame [samplePage 120 false; samplePage 240 true]
              = beforeBreak sampleFrame
                  [samplePage 120 false; samplePage 240 true;
                   samplePage 130 true]) by reflexivity.
  split; [exact H |].
  exact (proj2 (proj2 (paintPages_any_order sampleConfiguration
                         sampleMarginColor sampleScore [] sampleFrame
                         [samplePage 120 false; samplePage 240 true;
                          samplePage 130 true] true)) _ H).
Defined.


Lemma paint_without_borders_witness :
  m_score (with_score sampleNotation (setLayoutMode sampleScore SYSTEM))
  = Some (setLayoutMode sampleScore SYSTEM)
  /\ layoutMode (setLayoutMode sampleScore SYSTEM) = SYSTEM
  /\ exists painter',
       paint sampleConfiguration sampleMarginColor
         (with_score sampleNotation (setLayoutMode sampleScore SYSTEM))
         [] sampleFrame = Some painter'
       /\ rectDraws painter' = rectDraws []
       /\ lineDraws painter' = lineDraws [].
Proof.
  assert (Hs : m_score (with_score sampleNotation
                          (setLayoutMode sampleScore SYSTEM))
               = Some (setLayoutMode sampleScore SYSTEM)) by reflexivity.
  assert (Hm : layoutMode (setLayoutMode sampleScore SYSTEM) = SYSTEM)
    by reflexivity.
  split; [exact Hs |]. split; [exact Hm |].
  exact (paint_without_borders sampleConfiguration sampleMarginColor _ _
           [] sampleFrame Hs (or_intror (or_introl Hm))).
Defined.

Lemma paint_line_first_page_only_witness :
  m_score (with_score sampleNotation (setLayoutMode sampleScore LINE))
  = Some (setLayoutMode sampleScore LINE)
  /\ pages (setLayoutMode sampleScore LINE)
     = samplePage 0 true :: tl samplePages
  /\ layoutMode (setLayoutMode sampleScore LINE) = LINE
  /\ paint sampleConfiguration sampleMarginColor
       (with_score sampleNotation (setLayoutMode sampleScore LINE))
       [] sampleFrame
     = paint sampleConfiguration sampleMarginColor
         (with_score
            (with_score sampleNotation (setLayoutMode sampleScore LINE))
            (with_pages (setLayoutMode sampleScore LINE) [samplePage 0 true]))
         [] sampleFrame.
Proof.
  assert (Hs : m_score (with_score sampleNotation
                          (setLayoutMode sampleScore LINE))
               = Some (setLayoutMode sampleScore LINE)) by reflexivity.
  assert (Hp : pages (setLayoutMode sampleScore LINE)
               = samplePage 0 true :: tl samplePages) by reflexivity.
  assert (Hm : layoutMode (setLayoutMode sampleScore LINE) = LINE)
    by reflexivity.
  split; [exact Hs |]. split; [exact Hp |]. split; [exact Hm |].
  exact (paint_line_first_page_only sampleConfiguration sampleMarginColor
           _ _ [] sampleFrame _ _ Hs Hp (or_introl Hm)).
Defined.


Lemma metaInfo_after_setMetaInfo_witness :
  m_score sampleNotation = Some sampleScore
  /\ (setMetaInfo sampleNotation sampleMeta ≫= metaInfo)
     = Some {| meta_title := "Sonata";
               meta_subtitle := "in D";
               meta_composer := "J. S. Bach";
               meta_lyricist := "";
               meta_copyright := "public domain";
               meta_translator := "";
               meta_arranger := "F. Busoni";
               meta_creationDate :=
                 fromStringIsoDate (toString (mkDate 2020 5 20)) |}.
Proof.
  assert (Hs : m_score sampleNotation = Some sampleScore) by reflexivity.
  split; [exact Hs |].
  exact (metaInfo_after_setMetaInfo sampleNotation sampleScore sampleMeta Hs).
Defined.

Lemma setOpened_run_alternates_witness :
  (val (m_opened sampleNotation)
     :: changes (val (m_opened sampleNotation)) [true; true; false]) !! O
  = Some false
  /\ (val (m_opened sampleNotation)
        :: changes (val (m_opened sampleNotation)) [true; true; false]) !! 1%nat
     = Some true
  /\ true = negb false.
Proof.
  assert (H0 : (val (m_opened sampleNotation)
                  :: changes (val (m_opened sampleNotation))
                       [true; true; false]) !! O = Some false)
    by reflexivity.
  assert (H1 : (val (m_opened sampleNotation)
                  :: changes (val (m_opened sampleNotation))
                       [true; true; false]) !! 1%nat = Some true)
    by reflexivity.
  split; [exact H0 |]. split; [exact H1 |].
  exact (proj1 (proj2 (setOpened_run_alternates sampleNotation
                         [true; true; false])) O false true H0 H1).
Defined.

Lemma viewMode_setViewMode_witness :
  (forall s : Score, layoutMode ((fun s => s) s) = layoutMode s)
  /\ viewMode (setViewMode (fun s => s) sampleNotation LINE) = LINE.
Proof.
  assert (H : forall s : Score, layoutMode ((fun s => s) s) = layoutMode s)
    by reflexivity.
  split; [exact H |].
  exact (viewMode_setViewMode (fun s => s) sampleNotation LINE H).
Defined.

Lemma setViewMode_run_notifies_witness :
  is_Some (m_score sampleNotation)
  /\ m_notationChanged
       (fold_left (setViewMode (fun s => s)) [LINE; LINE; PAGE] sampleNotation)
     = (m_notationChanged sampleNotation + 3)%nat
  /\ m_score (Notation_new None) = None
  /\ fold_left (setViewMode (fun s => s)) [LINE; LINE; PAGE] (Notation_new None)
     = Notation_new None.
Proof.
  assert (Hs : is_Some (m_score sampleNotation))
    by (exists sampleScore; reflexivity).
  assert (Hn : m_score (Notation_new None) = None) by reflexivity.
  split; [exact Hs |].
  split.
  - exact (proj1 (proj2 (proj2 (setViewMode_run_notifies (fun s => s)
                                   sampleNotation [LINE; LINE; PAGE]) Hs))).
  - split; [exact Hn |].
    exact (proj1 (setViewMode_run_notifies (fun s => s) (Notation_new None)
                    [LINE; LINE; PAGE]) Hn).
Defined.

